(** * generate-launch-config.js: a shallow embedding and its properties

    The script reads [package.json], derives one VS Code launch
    configuration per npm script, merges them into [.vscode/launch.json]
    (after writing a timestamped backup), asks at most one question before
    overwriting entries that already exist, and writes the result.

    The embedding follows [scripts/generate-launch-config.js] top to bottom.
    The file system, the console, the terminal answer, the clock and the
    outcome of every I/O call are explicit. A file holds bytes; what the
    script reads and writes with ['utf-8'] is text, and the decoding and
    encoding between the two, with [JSON.parse] and [JSON.stringify], form
    an interface ([JSON]) the development is parametric in. *)

From Stdlib Require Import String Ascii List ZArith QArith Qcanon Lia.
From stdpp Require Import base option list gmap sets strings pretty.

Set Warnings "-register-all,-clear-no-such-hyp".

Local Open Scope string_scope.
Local Open Scope list_scope.

(** ** JavaScript strings

    A string is a sequence of code units; a character of Rocq's [ascii]
    stands for the code unit of the same number, and code units above 255
    are outside the model. The methods below are the ones the script
    calls. *)

(** [s.startsWith(p)] *)
Fixpoint startsWith (s p : string) {struct p} : bool :=
  match p with
  | EmptyString => true
  | String a p' =>
      match s with
      | EmptyString => false
      | String b s' => if Ascii.eqb a b then startsWith s' p' else false
      end
  end.

(** [s.includes(sub)] *)
Fixpoint includes (s sub : string) : bool :=
  startsWith s sub ||
  match s with
  | EmptyString => false
  | String _ s' => includes s' sub
  end.

(** White space and line terminators stripped by [trim]: tab, line feed,
    vertical tab, form feed, carriage return, space and no-break space. *)
Definition isWhiteSpace (c : ascii) : bool :=
  match c with
  | "009" | "010" | "011" | "012" | "013" | " " | "160" => true
  | _ => false
  end%char.

Fixpoint trimStart (s : string) : string :=
  match s with
  | EmptyString => EmptyString
  | String c s' => if isWhiteSpace c then trimStart s' else s
  end.

Fixpoint trimEnd (s : string) : string :=
  match s with
  | EmptyString => EmptyString
  | String c s' =>
      match trimEnd s' with
      | EmptyString => if isWhiteSpace c then EmptyString else String c EmptyString
      | t => String c t
      end
  end.

(** [s.trim()] *)
Definition trim (s : string) : string := trimEnd (trimStart s).

(** Lower case of a code unit: [A] to [Z], and the capital letters of
    Latin-1 (192 to 222, the multiplication sign 215 apart). *)
Definition lowerChar (c : ascii) : ascii :=
  let n := nat_of_ascii c in
  if (65 <=? n)%nat && (n <=? 90)%nat then ascii_of_nat (n + 32)
  else if (192 <=? n)%nat && (n <=? 222)%nat && negb (n =? 215)%nat
       then ascii_of_nat (n + 32)
       else c.

(** [s.toLowerCase()] *)
Fixpoint toLowerCase (s : string) : string :=
  match s with
  | EmptyString => EmptyString
  | String c s' => String (lowerChar c) (toLowerCase s')
  end.

(** [s.replace(/[:.]/g, '-')] *)
Fixpoint replaceColonDot (s : string) : string :=
  match s with
  | EmptyString => EmptyString
  | String c s' =>
      String (if Ascii.eqb c ":" || Ascii.eqb c "." then "-"%char else c)
             (replaceColonDot s')
  end.

(** A string is truthy when it is not empty. *)
Definition nonEmpty (s : string) : bool :=
  match s with EmptyString => false | _ => true end.

(** ** File contents

    The content of a file is a sequence of bytes; a character of [ascii]
    stands for the byte of the same number. *)
Abbreviation bytes := string (only parsing).

(** The first [n] bytes. *)
Fixpoint firstBytes (n : nat) (b : bytes) : bytes :=
  match n, b with
  | S n', String c b' => String c (firstBytes n' b')
  | _, _ => EmptyString
  end.

(** ** JSON values

    What [JSON.parse] returns. A number is the rational it denotes (the
    script only tests numbers for zero and compares them as [Map] keys, and
    both treat [-0] as [0]). An object is the list of its own properties in
    enumeration order. [undefined] is [None] of [option json]. *)

Inductive json : Type :=
| JNull
| JBool (b : bool)
| JNum (q : Qc)
| JStr (s : string)
| JArr (items : list json)
| JObj (fields : list (string * json)).

Definition isNull (v : json) : bool :=
  match v with JNull => true | _ => false end.

(** Truthiness, as [||] and [if] test it. *)
Definition truthy (v : option json) : bool :=
  match v with
  | None => false
  | Some JNull => false
  | Some (JBool b) => b
  | Some (JNum q) => negb (Qc_eq_bool q 0%Qc)
  | Some (JStr s) => nonEmpty s
  | Some (JArr _) => true
  | Some (JObj _) => true
  end.

(** [a || b] with [b] a JSON value. *)
Definition orElse (a : option json) (b : json) : json :=
  match a with
  | Some v => if truthy a then v else b
  | None => b
  end.

(** Own property [k] of a list of properties. *)
Fixpoint field (k : string) (fields : list (string * json)) : option json :=
  match fields with
  | [] => None
  | (k', v) :: rest => if String.eqb k' k then Some v else field k rest
  end.

(** [v.k] for a value [v] that is not [null], and for the three property
    names the script reads ([scripts], [configurations], [name]): none of
    them exists on the prototypes of arrays, strings, numbers or booleans,
    so only an object's own property counts. *)
Definition prop (v : json) (k : string) : option json :=
  match v with
  | JObj fields => field k fields
  | _ => None
  end.

(** [obj[k] = v] on a property list: update in place or append. *)
Fixpoint setField (k : string) (v : json) (fields : list (string * json))
  : list (string * json) :=
  match fields with
  | [] => [(k, v)]
  | (k', v') :: rest =>
      if String.eqb k' k then (k', v) :: rest else (k', v') :: setField k v rest
  end.

(** [Object.fromEntries(entries)] *)
Definition fromEntries (entries : list (string * json)) : list (string * json) :=
  fold_left (fun o kv => setField kv.1 kv.2 o) entries [].

Fixpoint chars (s : string) : list ascii :=
  match s with
  | EmptyString => []
  | String c s' => c :: chars s'
  end.

(** [Object.entries(v)]: own enumerable properties. An array and a string
    have their indices, numbers and booleans have none. ([null] never
    reaches the call: it is falsy and replaced by [{}] first.) *)
Definition entries (v : json) : list (string * json) :=
  match v with
  | JObj fields => fields
  | JArr items => imap (fun i x => (pretty i, x)) items
  | JStr s => imap (fun i c => (pretty i, JStr (String c EmptyString))) (chars s)
  | _ => []
  end.

(** [Object.keys(obj)] for a property list. *)
Definition keys (fields : list (string * json)) : list string := fields.*1.

(** ** The [Map] of configurations

    A [Map] key is the value of [cfg.name], compared by SameValueZero:
    primitives by value, objects and arrays by identity. The name of the
    [i]-th existing entry, when it is an object or an array, is a reference
    no other entry shares: [KRef i]. *)

Inductive key : Type :=
| KUndefined
| KNull
| KBool (b : bool)
| KNum (q : Qc)
| KStr (s : string)
| KRef (i : nat).

#[global] Instance key_eq_dec : EqDecision key.
Proof. solve_decision. Defined.

Definition keyOf (i : nat) (name : option json) : key :=
  match name with
  | None => KUndefined
  | Some JNull => KNull
  | Some (JBool b) => KBool b
  | Some (JNum q) => KNum q
  | Some (JStr s) => KStr s
  | Some (JArr _) => KRef i
  | Some (JObj _) => KRef i
  end.

(** A [Map] keeps its entries in insertion order. *)
Definition Map : Type := list (key * json).

(** [m.has(k)] *)
Definition Map_has (m : Map) (k : key) : bool := bool_decide (k ∈ m.*1).

(** [m.get(k)] *)
Fixpoint Map_get (m : Map) (k : key) : option json :=
  match m with
  | [] => None
  | (k', v) :: rest => if decide (k' = k) then Some v else Map_get rest k
  end.

(** [m.set(k, v)]: a present key keeps its position and takes the new
    value, an absent key is appended. *)
Fixpoint Map_set (k : key) (v : json) (m : Map) : Map :=
  match m with
  | [] => [(k, v)]
  | (k', v') :: rest =>
      if decide (k' = k) then (k', v) :: rest else (k', v') :: Map_set k v rest
  end.

(** [new Map(pairs)] *)
Definition Map_new (pairs : list (key * json)) : Map :=
  fold_left (fun m kv => Map_set kv.1 kv.2 m) pairs [].

(** [Array.from(m.values())] *)
Definition Map_values (m : Map) : list json := m.*2.

(** ** The process and its environment *)

Inductive io_site : Type :=
| ReadManifest   (* fs.readFileSync(packageJsonPath, 'utf-8') *)
| MkdirVscode    (* fs.mkdirSync(vscodeDir) *)
| ReadLaunch     (* fs.readFileSync(launchJsonPath, 'utf-8') *)
| WriteBackup    (* fs.writeFileSync(backupPath, originalContent) *)
| WriteLaunch.   (* fs.writeFileSync(launchJsonPath, ...) *)

#[global] Instance io_site_eq_dec : EqDecision io_site.
Proof. solve_decision. Defined.

Inductive error : Type :=
| SyntaxError              (* JSON.parse on malformed text *)
| TypeError                (* property of null, call of a non-function *)
| IOError (site : io_site). (* an fs call that failed *)

(** The lines the script prints; their wording carries no contract, so a
    constructor stands for each template. *)
Inductive message : Type :=
| NoPackageJson
| NoScriptsMatched (filter : string)
| BackupCreated (path : string)
| CouldNotParse
| OverwriteAll (n : nat)
| Overwrote (n : nat)
| Skipped (n : nat)
| Updated (n : nat).

Inductive event : Type :=
| ConsoleError (m : message)
| ConsoleWarn (m : message)
| ConsoleLog (m : message)
| Question (m : message).   (* rl.question(m + ' (y/n): ', ...) *)

(** What one invocation is given. [argv] is [process.argv.slice(2)];
    [clock] is [new Date().toISOString()]; [stdin] is the line typed at the
    prompt, [None] when input ends without one; [io_fails] tells which fs
    calls fail for a reason outside the script (permissions, a full disk);
    [io_wrote] tells how far a write that fails had come: [None] when the
    file could not be opened, [Some n] when it had been opened, and so
    created or emptied, and [n] bytes had gone into it. *)
Record world : Type := World {
  argv : list string;
  cwd : string;
  clock : string;
  stdin : option string;
  io_fails : io_site -> bool;
  io_wrote : io_site -> option nat
}.

(** Files (path to bytes), directories, and the console transcript, oldest
    line first. *)
Record process : Type := Process {
  files : gmap string bytes;
  dirs : gset string;
  console : list event
}.

(** How a computation ends: with a value, by [process.exit(code)], by an
    exception nobody caught, or waiting for an answer that never comes. *)
Inductive ending (A : Type) : Type :=
| Done (a : A)
| Exited (code : Z)
| Uncaught (e : error)
| Pending.
Arguments Done {A} a.
Arguments Exited {A} code.
Arguments Uncaught {A} e.
Arguments Pending {A}.

Definition M (A : Type) : Type := process -> ending A * process.

#[global] Instance M_ret : MRet M := fun A a st => (Done a, st).

#[global] Instance M_bind : MBind M := fun A B f m st =>
  match m st with
  | (Done a, st') => f a st'
  | (Exited c, st') => (Exited c, st')
  | (Uncaught e, st') => (Uncaught e, st')
  | (Pending, st') => (Pending, st')
  end.

Definition throw {A} (e : error) : M A := fun st => (Uncaught e, st).

(** [process.exit(code)] *)
Definition process_exit {A} (code : Z) : M A := fun st => (Exited code, st).

(** [try { m } catch (err) { h }]: only an exception is caught. *)
Definition tryCatch {A} (m : M A) (h : error -> M A) : M A := fun st =>
  match m st with
  | (Uncaught e, st') => h e st'
  | r => r
  end.

Definition emit (e : event) : M unit := fun st =>
  (Done tt, Process (files st) (dirs st) (console st ++ [e])).

Definition console_error (m : message) : M unit := emit (ConsoleError m).
Definition console_warn (m : message) : M unit := emit (ConsoleWarn m).
Definition console_log (m : message) : M unit := emit (ConsoleLog m).

(** The status the shell sees. Node ends a process with status 1 on an
    uncaught exception (and, since version 15, on an unhandled rejection
    of the final [async] block); a process with nothing left to wait for
    ends with status 0. *)
Definition exitStatus {A} (r : ending A) : Z :=
  match r with
  | Done _ => 0
  | Exited c => c
  | Uncaught _ => 1
  | Pending => 0
  end.

(** Text and JSON. [Text] is what a file is read into and written from
    under ['utf-8']: [utf8_decode] is the decoding of the bytes read (bytes
    that are no utf-8 come out as U+FFFD), [utf8_encode] the encoding of the
    text written. [JSON_parse] is [JSON.parse] ([None]: it throws a
    [SyntaxError]), [JSON_stringify] is [JSON.stringify(v, null, 2)]. *)
Class JSON : Type := {
  Text : Type;
  utf8_decode : bytes -> Text;
  utf8_encode : Text -> bytes;
  JSON_parse : Text -> option json;
  JSON_stringify : json -> Text
}.

(** ** The script *)

Section Script.
Context `{JSON} (w : world).

(** *** CLI argument parsing *)

(** [args.indexOf(flag)], [None] for [-1]. *)
Fixpoint indexOf (args : list string) (flag : string) : option nat :=
  match args with
  | [] => None
  | a :: rest => if String.eqb a flag then Some 0%nat else S <$> indexOf rest flag
  end.

Definition getArg (flag fallback : string) : string :=
  match indexOf (argv w) flag with
  | Some index =>
      match argv w !! (index + 1)%nat with
      | Some v => if nonEmpty v then v else fallback
      | None => fallback
      end
  | None => fallback
  end.

Definition hasFlag (flag : string) : bool := bool_decide (flag ∈ argv w).

Definition packageManager : string := getArg "--manager" "npm".
Definition filterPrefix : string := getArg "--filter" "".
Definition autoYes : bool := hasFlag "--yes".

(** *** File paths *)

(** [path.join(a, b)] and [path.resolve(b)] for a plain name [b]; the
    working directory is given without a trailing separator. *)
Definition path_join (a b : string) : string := a +:+ "/" +:+ b.

Definition packageJsonPath : string := path_join (cwd w) "package.json".
Definition vscodeDir : string := path_join (cwd w) ".vscode".
Definition launchJsonPath : string := path_join vscodeDir "launch.json".

Definition getTimestampedBackupPath : string :=
  let timestamp := replaceColonDot (clock w) in
  path_join vscodeDir ("launch.backup." +:+ timestamp +:+ ".json").

(** *** fs

    A call fails when the environment says so ([io_fails]); reading a path
    that holds no file fails in any case. A call that does not fail has its
    plain effect. [writeFileSync] opens the file for writing, which creates
    or empties it, and then writes: when it fails, the file is as it was if
    it could not be opened, and holds the bytes written by then
    otherwise. *)

Definition existsSync (p : string) : M bool := fun st =>
  (Done (bool_decide (is_Some (files st !! p) ∨ p ∈ dirs st)), st).

(** [fs.readFileSync(p, 'utf-8')] *)
Definition readFileSync (site : io_site) (p : string) : M Text := fun st =>
  if io_fails w site then (Uncaught (IOError site), st)
  else match files st !! p with
       | Some content => (Done (utf8_decode content), st)
       | None => (Uncaught (IOError site), st)
       end.

(** What a write that fails leaves behind. *)
Definition failedWrite (site : io_site) (p : string) (content : bytes)
    (st : process) : process :=
  match io_wrote w site with
  | Some n => Process (<[p := firstBytes n content]> (files st)) (dirs st) (console st)
  | None => st
  end.

(** [fs.writeFileSync(p, data)] for a string [data]: it is written as
    utf-8. *)
Definition writeFileSync (site : io_site) (p : string) (data : Text) : M unit :=
  fun st =>
    if io_fails w site
    then (Uncaught (IOError site), failedWrite site p (utf8_encode data) st)
    else (Done tt,
          Process (<[p := utf8_encode data]> (files st)) (dirs st) (console st)).

Definition mkdirSync (site : io_site) (p : string) : M unit := fun st =>
  if io_fails w site then (Uncaught (IOError site), st)
  else (Done tt, Process (files st) ({[p]} ∪ dirs st) (console st)).

Definition parse (data : Text) : M json :=
  match JSON_parse data with
  | Some v => mret v
  | None => throw SyntaxError
  end.

(** [v.k]: reading a property of [null] throws. *)
Definition getProp (v : json) (k : string) : M (option json) :=
  if isNull v then throw TypeError else mret (prop v k).

(** *** The prompt *)

(** [answer.trim().toLowerCase() === 'y'] *)
Definition saysYes (answer : string) : bool :=
  bool_decide (toLowerCase (trim answer) = "y").

Definition promptYesNo (question : message) : M bool :=
  if autoYes then mret true
  else fun st =>
    let st' := Process (files st) (dirs st) (console st ++ [Question question]) in
    match stdin w with
    | Some answer => (Done (saysYes answer), st')
    | None => (Pending, st')
    end.

(** *** Script execution: from the manifest to the scripts kept *)

Definition selectScripts (pkgScripts : option json) : list (string * json) :=
  let scripts := entries (orElse pkgScripts (JObj [])) in
  let scripts :=
    fromEntries (filter (fun e => negb (includes e.1 "generate-launch")) scripts) in
  if nonEmpty filterPrefix
  then fromEntries (filter (fun e => startsWith e.1 filterPrefix) scripts)
  else scripts.

Definition loadScripts : M (list (string * json)) :=
  found ← existsSync packageJsonPath;
  if negb found then
    console_error NoPackageJson;; process_exit 1
  else
    text ← readFileSync ReadManifest packageJsonPath;
    pkg ← parse text;
    pkgScripts ← getProp pkg "scripts";
    let scripts := selectScripts pkgScripts in
    if (length (keys scripts) =? 0)%nat then
      console_warn (NoScriptsMatched filterPrefix);; process_exit 0
    else mret scripts.

Definition ensureVscodeDir : M unit :=
  found ← existsSync vscodeDir;
  if negb found then mkdirSync MkdirVscode vscodeDir else mret tt.

(** *** The existing launch.json and its backup *)

Definition emptyLaunchJson : json :=
  JObj [("version", JStr "0.2.0"); ("configurations", JArr [])].

Definition loadExisting : M json :=
  found ← existsSync launchJsonPath;
  if (found : bool) then
    tryCatch
      (originalContent ← readFileSync ReadLaunch launchJsonPath;
       let backupPath := getTimestampedBackupPath in
       writeFileSync WriteBackup backupPath originalContent;;
       console_log (BackupCreated backupPath);;
       parse originalContent)
      (fun err => console_warn CouldNotParse;; mret emptyLaunchJson)
  else mret emptyLaunchJson.

(** [existingConfigs.map((cfg) => [cfg.name, cfg])]: the receiver has to
    be an array, and reading [cfg.name] throws when an element is [null]. *)
Definition namePairs (existingConfigs : json) : option (list (key * json)) :=
  match existingConfigs with
  | JArr items =>
      if forallb (fun cfg => negb (isNull cfg)) items
      then Some (imap (fun i cfg => (keyOf i (prop cfg "name"), cfg)) items)
      else None
  | _ => None
  end.

Definition loadConfigMap (existingLaunchJson : json) : M Map :=
  configurations ← getProp existingLaunchJson "configurations";
  let existingConfigs := orElse configurations (JArr []) in
  match namePairs existingConfigs with
  | Some pairs => mret (Map_new pairs)
  | None => throw TypeError
  end.

(** *** Build new configurations *)

(** [`${packageManager}: ${scriptName}`] *)
Definition configName (scriptName : string) : string :=
  packageManager +:+ ": " +:+ scriptName.

Definition makeConfig (scriptName : string) : json :=
  JObj [("type", JStr "node");
        ("request", JStr "launch");
        ("name", JStr (configName scriptName));
        ("runtimeExecutable", JStr packageManager);
        ("runtimeArgs", JArr [JStr "run"; JStr scriptName]);
        ("console", JStr "integratedTerminal");
        ("internalConsoleOptions", JStr "neverOpen");
        ("skipFiles", JArr [JStr "<node_internals>/**"])].

Record merge : Type := Merge {
  configMap : Map;
  newConfigs : list string;
  configsToOverwrite : list (string * json)
}.

(** One turn of the [for] loop. *)
Definition addScript (acc : merge) (scriptName : string) : merge :=
  let configName := configName scriptName in
  let config := makeConfig scriptName in
  if Map_has (configMap acc) (KStr configName)
  then Merge (configMap acc) (newConfigs acc)
             (configsToOverwrite acc ++ [(configName, config)])
  else Merge (Map_set (KStr configName) config (configMap acc))
             (newConfigs acc ++ [configName])
             (configsToOverwrite acc).

Definition buildConfigs (existing : Map) (scripts : list (string * json)) : merge :=
  fold_left addScript (keys scripts) (Merge existing [] []).

(** *** Confirm overwrites and save *)

Definition overwriteAll (m : Map) (overwrites : list (string * json)) : Map :=
  fold_left (fun m nc => Map_set (KStr nc.1) nc.2 m) overwrites m.

Definition mergedLaunchJson (configurations : list json) : json :=
  JObj [("version", JStr "0.2.0"); ("configurations", JArr configurations)].

Definition confirmAndSave (g : merge) : M unit :=
  let n := length (configsToOverwrite g) in
  overwriteConfirmed ←
    (if (0 <? n)%nat && negb autoYes
     then promptYesNo (OverwriteAll n)
     else mret autoYes) : M bool;
  let final :=
    if (overwriteConfirmed : bool)
    then overwriteAll (configMap g) (configsToOverwrite g)
    else configMap g in
  console_log (if overwriteConfirmed then Overwrote n else Skipped n);;
  writeFileSync WriteLaunch launchJsonPath
    (JSON_stringify (mergedLaunchJson (Map_values final)));;
  console_log (Updated (length (newConfigs g) + (if overwriteConfirmed then n else 0))).

(** Everything up to the [async] block. *)
Definition prepare : M merge :=
  scripts ← loadScripts;
  ensureVscodeDir;;
  existingLaunchJson ← loadExisting;
  existing ← loadConfigMap existingLaunchJson;
  mret (buildConfigs existing scripts).

Definition main : M unit := prepare ≫= confirmAndSave.

End Script.

(** One invocation on a file system, with an empty console. *)
Definition run `{JSON} (w : world) (fs : gmap string string) (ds : gset string)
  : ending unit * process :=
  main w (Process fs ds []).

(** * The vocabulary of the properties

    Definitions the statements below are written with. None of them is part
    of the script. *)

(** ** Entries and their names *)

(** The identifying name of an entry: its [name], when that is a string. *)
Definition stringName (v : json) : option string :=
  match prop v "name" with
  | Some (JStr s) => Some s
  | _ => None
  end.

(** Every key of the map is the [name] of the value it is bound to. *)
Definition keyed (m : Map) : Prop :=
  forall k v, (k, v) ∈ m -> isNull v = false /\ exists i, k = keyOf i (prop v "name").

(** Whether a [name] is an object or an array, compared by identity. *)
Definition isRef (name : option json) : bool :=
  match name with
  | Some (JArr _) | Some (JObj _) => true
  | _ => false
  end.

(** The [name] of an entry as a value: a string, a number, a boolean,
    [null], or none at all ([undefined]); an object or an array is no such
    name. *)
Definition plainName (v : json) : option (option json) :=
  if isRef (prop v "name") then None else Some (prop v "name").

(** The pairs the next run derives from the values of a map, counting
    entries from [j]. *)
Definition rekeyFrom (j : nat) (values : list json) : list (key * json) :=
  imap (fun i cfg => (keyOf (j + i) (prop cfg "name"), cfg)) values.

(** ** The console and the prompt *)

(** The state with more lines on the console. *)
Definition say (st : process) (evs : list event) : process :=
  Process (files st) (dirs st) (console st ++ evs).

(** The number of questions put to the user so far. *)
Definition isQuestion (e : event) : bool :=
  match e with Question _ => true | _ => false end.

Definition questions (evs : list event) : nat := length (filter isQuestion evs).

(** Nothing but white space. *)
Fixpoint blank (s : string) : bool :=
  match s with
  | EmptyString => true
  | String c s' => isWhiteSpace c && blank s'
  end.

(** Whether something is at a path. *)
Definition found (p : string) (st : process) : Prop :=
  is_Some (files st !! p) \/ p ∈ dirs st.

Section Vocabulary.
Context `{JSON} (w : world).

(** ** The merge in closed form *)

(** Whether a script's identifying name is free in the existing map. *)
Definition fresh (existing : Map) (s : string) : Prop :=
  KStr (configName w s) ∉ existing.*1.

(** The entries the loop appends, and the overwrites it queues. *)
Definition added (existing : Map) (names : list string) : Map :=
  (fun s => (KStr (configName w s), makeConfig w s)) <$> filter (fresh existing) names.

Definition conflicts (existing : Map) (names : list string) : list (string * json) :=
  (fun s => (configName w s, makeConfig w s))
    <$> filter (fun s => ¬ fresh existing s) names.

(** Bytes that are utf-8: decoded and encoded again, they are what they
    were. *)
Definition validUtf8 (content : bytes) : Prop :=
  utf8_encode (utf8_decode content) = content.

(** The entries of the target file as it stood before the run. *)
Definition preRunEntries (target : option bytes) : list json :=
  match target with
  | Some text =>
      match JSON_parse (utf8_decode text) with
      | Some doc =>
          match orElse (prop doc "configurations") (JArr []) with
          | JArr items => items
          | _ => []
          end
      | None => []
      end
  | None => []
  end.

(** The map built from a list of existing entries. *)
Definition existingMap (items : list json) : Map :=
  Map_new (imap (fun i cfg => (keyOf i (prop cfg "name"), cfg)) items).

(** ** The stages of a run

    Each stage of the script is characterised by a relation between the
    state it starts in, the way it ends and the state it leaves. *)

(** *** The script extractor *)

Inductive loadScripts_result (st : process)
  : ending (list (string * json)) -> process -> Prop :=
| LS_missing :
    ¬ found (packageJsonPath w) st ->
    loadScripts_result st (Exited 1) (say st [ConsoleError NoPackageJson])
| LS_unread :
    found (packageJsonPath w) st ->
    io_fails w ReadManifest = true \/ files st !! packageJsonPath w = None ->
    loadScripts_result st (Uncaught (IOError ReadManifest)) st
| LS_malformed text :
    files st !! packageJsonPath w = Some text ->
    io_fails w ReadManifest = false ->
    JSON_parse (utf8_decode text) = None ->
    loadScripts_result st (Uncaught SyntaxError) st
| LS_null text :
    files st !! packageJsonPath w = Some text ->
    io_fails w ReadManifest = false ->
    JSON_parse (utf8_decode text) = Some JNull ->
    loadScripts_result st (Uncaught TypeError) st
| LS_nothing text pkg :
    files st !! packageJsonPath w = Some text ->
    io_fails w ReadManifest = false ->
    JSON_parse (utf8_decode text) = Some pkg ->
    isNull pkg = false ->
    keys (selectScripts w (prop pkg "scripts")) = [] ->
    loadScripts_result st (Exited 0)
      (say st [ConsoleWarn (NoScriptsMatched (filterPrefix w))])
| LS_scripts text pkg :
    files st !! packageJsonPath w = Some text ->
    io_fails w ReadManifest = false ->
    JSON_parse (utf8_decode text) = Some pkg ->
    isNull pkg = false ->
    keys (selectScripts w (prop pkg "scripts")) <> [] ->
    loadScripts_result st (Done (selectScripts w (prop pkg "scripts"))) st.

(** *** The .vscode directory *)

Inductive ensureVscodeDir_result (st : process) : ending unit -> process -> Prop :=
| EV_present :
    found (vscodeDir w) st ->
    ensureVscodeDir_result st (Done tt) st
| EV_created :
    ¬ found (vscodeDir w) st ->
    io_fails w MkdirVscode = false ->
    ensureVscodeDir_result st (Done tt)
      (Process (files st) ({[vscodeDir w]} ∪ dirs st) (console st))
| EV_failed :
    ¬ found (vscodeDir w) st ->
    io_fails w MkdirVscode = true ->
    ensureVscodeDir_result st (Uncaught (IOError MkdirVscode)) st.

(** *** Backup and load *)

Inductive loadExisting_result (st : process) : ending json -> process -> Prop :=
| LE_absent :
    ¬ found (launchJsonPath w) st ->
    loadExisting_result st (Done emptyLaunchJson) st
| LE_unread :
    found (launchJsonPath w) st ->
    io_fails w ReadLaunch = true \/ files st !! launchJsonPath w = None ->
    loadExisting_result st (Done emptyLaunchJson) (say st [ConsoleWarn CouldNotParse])
| LE_nobackup text :
    files st !! launchJsonPath w = Some text ->
    io_fails w ReadLaunch = false ->
    io_fails w WriteBackup = true ->
    loadExisting_result st (Done emptyLaunchJson)
      (say (failedWrite w WriteBackup (getTimestampedBackupPath w)
              (utf8_encode (utf8_decode text)) st)
         [ConsoleWarn CouldNotParse])
| LE_parsed text doc :
    files st !! launchJsonPath w = Some text ->
    io_fails w ReadLaunch = false ->
    io_fails w WriteBackup = false ->
    JSON_parse (utf8_decode text) = Some doc ->
    loadExisting_result st (Done doc)
      (Process (<[getTimestampedBackupPath w := utf8_encode (utf8_decode text)]> (files st))
         (dirs st)
         (console st ++ [ConsoleLog (BackupCreated (getTimestampedBackupPath w))]))
| LE_unparsed text :
    files st !! launchJsonPath w = Some text ->
    io_fails w ReadLaunch = false ->
    io_fails w WriteBackup = false ->
    JSON_parse (utf8_decode text) = None ->
    loadExisting_result st (Done emptyLaunchJson)
      (Process (<[getTimestampedBackupPath w := utf8_encode (utf8_decode text)]> (files st))
         (dirs st)
         (console st ++ [ConsoleLog (BackupCreated (getTimestampedBackupPath w));
                         ConsoleWarn CouldNotParse])).

(** *** The working map *)

Inductive loadConfigMap_result (doc : json) (st : process)
  : ending Map -> process -> Prop :=
| LC_thrown :
    isNull doc = true
    \/ namePairs (orElse (prop doc "configurations") (JArr [])) = None ->
    loadConfigMap_result doc st (Uncaught TypeError) st
| LC_map items :
    isNull doc = false ->
    orElse (prop doc "configurations") (JArr []) = JArr items ->
    Forall (fun cfg => isNull cfg = false) items ->
    loadConfigMap_result doc st
      (Done (Map_new (imap (fun i cfg => (keyOf i (prop cfg "name"), cfg)) items))) st.

(** *** The confirmation gate and the writer *)

(** The map that is written, for a decision. *)
Definition finalMap (g : merge) (yes : bool) : Map :=
  if yes then overwriteAll (configMap g) (configsToOverwrite g) else configMap g.

(** How the decision is reached, and what it puts on the console. *)
Inductive decision (g : merge) : bool -> list event -> Prop :=
| D_auto :
    autoYes w = true ->
    decision g true []
| D_moot :
    autoYes w = false ->
    configsToOverwrite g = [] ->
    decision g false []
| D_answer answer :
    autoYes w = false ->
    configsToOverwrite g <> [] ->
    stdin w = Some answer ->
    decision g (saysYes answer)
      [Question (OverwriteAll (length (configsToOverwrite g)))].

Definition verdict (g : merge) (yes : bool) : event :=
  ConsoleLog (if yes then Overwrote (length (configsToOverwrite g))
              else Skipped (length (configsToOverwrite g))).

Inductive confirmAndSave_result (g : merge) (st : process)
  : ending unit -> process -> Prop :=
| CS_pending :
    autoYes w = false ->
    configsToOverwrite g <> [] ->
    stdin w = None ->
    confirmAndSave_result g st Pending
      (say st [Question (OverwriteAll (length (configsToOverwrite g)))])
| CS_failed yes asked :
    decision g yes asked ->
    io_fails w WriteLaunch = true ->
    confirmAndSave_result g st (Uncaught (IOError WriteLaunch))
      (failedWrite w WriteLaunch (launchJsonPath w)
         (utf8_encode (JSON_stringify (mergedLaunchJson (Map_values (finalMap g yes)))))
         (say st (asked ++ [verdict g yes])))
| CS_saved yes asked :
    decision g yes asked ->
    io_fails w WriteLaunch = false ->
    confirmAndSave_result g st (Done tt)
      (Process
         (<[launchJsonPath w :=
              utf8_encode
                (JSON_stringify (mergedLaunchJson (Map_values (finalMap g yes))))]>
            (files st))
         (dirs st)
         (console st ++ asked ++
            [verdict g yes;
             ConsoleLog (Updated (length (newConfigs g)
               + (if yes then length (configsToOverwrite g) else 0)))])).

End Vocabulary.

(** * Scenarios *)

Module Scenario.

Definition quote : string := String (ascii_of_nat 34) EmptyString.

(** A compact rendering of JSON values, enough to give the files of the
    scenarios a text. *)
Fixpoint render (v : json) : string :=
  match v with
  | JNull => "null"
  | JBool b => if b then "true" else "false"
  | JNum q => pretty (Qnum (this q)) +:+ "/" +:+ pretty (Zpos (Qden (this q)))
  | JStr s => quote +:+ s +:+ quote
  | JArr items =>
      "[" +:+ (fix go (l : list json) : string :=
                 match l with
                 | [] => ""
                 | [x] => render x
                 | x :: rest => render x +:+ "," +:+ go rest
                 end) items +:+ "]"
  | JObj fields =>
      "{" +:+ (fix go (l : list (string * json)) : string :=
                 match l with
                 | [] => ""
                 | [(k, x)] => quote +:+ k +:+ quote +:+ ":" +:+ render x
                 | (k, x) :: rest =>
                     quote +:+ k +:+ quote +:+ ":" +:+ render x +:+ "," +:+ go rest
                 end) fields +:+ "}"
  end.

(** Text as the sequence of its code points, and utf-8 as the Encoding
    Standard has it: every maximal part of the bytes that is no utf-8 is
    decoded to U+FFFD. *)
Definition codePoints : Type := list N.

(** U+FFFD *)
Definition replacement : N := 65533%N.

Definition within (lo hi b : N) : bool := ((lo <=? b) && (b <=? hi))%N.

(** The decoder of the standard, started on [bs] with the code point [cp]
    under way, [need] more bytes wanted, the next of them between [lo] and
    [hi]. A byte that does not fit ends the sequence under way, which gives
    U+FFFD, and is then read as the lead of the next. *)

Fixpoint decodeFrom (bs : list N) (cp : N) (need : nat) (lo hi : N) : codePoints :=
  match bs with
  | [] => match need with O => [] | S _ => [replacement] end
  | b :: rest =>
      let lead :=
        if (b <? 128)%N then b :: decodeFrom rest 0%N 0%nat 128%N 191%N
        else if within 194 223 b then decodeFrom rest (b mod 32)%N 1%nat 128%N 191%N
        else if within 224 239 b then
          decodeFrom rest (b mod 16)%N 2%nat
            (if (b =? 224)%N then 160%N else 128%N)
            (if (b =? 237)%N then 159%N else 191%N)
        else if within 240 244 b then
          decodeFrom rest (b mod 8)%N 3%nat
            (if (b =? 240)%N then 144%N else 128%N)
            (if (b =? 244)%N then 143%N else 191%N)
        else replacement :: decodeFrom rest 0%N 0%nat 128%N 191%N in
      match need with
      | O => lead
      | S k =>
          if within lo hi b then
            let cp' := (cp * 64 + b mod 64)%N in
            match k with
            | O => cp' :: decodeFrom rest 0%N 0%nat 128%N 191%N
            | S _ => decodeFrom rest cp' k 128%N 191%N
            end
          else replacement :: lead
      end
  end.

Definition decode (content : bytes) : codePoints :=
  decodeFrom (N_of_ascii <$> chars content) 0%N 0%nat 128%N 191%N.

Definition byte (n : N) : string := String (ascii_of_N n) EmptyString.

(** The bytes of a code point; what is no scalar value is written as
    U+FFFD. *)
Definition encodePoint (c : N) : bytes :=
  if (c <? 128)%N then byte c
  else if (c <? 2048)%N then byte (192 + c / 64) +:+ byte (128 + c mod 64)
  else if within 55296 57343 c || (1114111 <? c)%N then
    byte 239 +:+ byte 191 +:+ byte 189
  else if (c <? 65536)%N then
    byte (224 + c / 4096) +:+ byte (128 + (c / 64) mod 64) +:+ byte (128 + c mod 64)
  else
    byte (240 + c / 262144) +:+ byte (128 + (c / 4096) mod 64)
      +:+ byte (128 + (c / 64) mod 64) +:+ byte (128 + c mod 64).

Definition encode (t : codePoints) : bytes :=
  foldr (fun c rest => encodePoint c +:+ rest) "" t.

(** The code points of a string of the model. *)
Definition points (s : string) : codePoints := N_of_ascii <$> chars s.

(** A parser that knows the documents of a scenario: a text parses to the
    first known document it renders. *)
Definition parseKnown (known : list json) (t : codePoints) : option json :=
  List.find (fun v => bool_decide (points (render v) = t)) known.

Definition codec (known : list json) : JSON :=
  {| Text := codePoints;
     utf8_decode := decode;
     utf8_encode := encode;
     JSON_parse := parseKnown known;
     JSON_stringify := fun v => points (render v) |}.

Definition noFaults : io_site -> bool := fun _ => false.

Definition manifest : json :=
  JObj [("name", JStr "demo");
        ("scripts", JObj [("dev", JStr "vite");
                          ("build", JStr "vite build");
                          ("generate-launch", JStr "node scripts/generate-launch-config.js")])].

(** A manifest without scripts. *)
Definition bare : json := JObj [("name", JStr "demo")].

Definition attach : json :=
  JObj [("type", JStr "node"); ("request", JStr "attach"); ("name", JStr "Attach")].

Definition staleDev : json :=
  JObj [("type", JStr "node"); ("request", JStr "launch"); ("name", JStr "npm: dev");
        ("program", JStr "old.js")].

Definition launch : json :=
  JObj [("version", JStr "0.2.0"); ("configurations", JArr [attach; staleDev])].

(** A project with a manifest and a target file. *)
Definition project : gmap string string :=
  {[ "/proj/package.json" := render manifest;
     "/proj/.vscode/launch.json" := render launch ]}.

Definition vscode : gset string := {[ "/proj/.vscode" ]}.

Definition failing (site : io_site) : io_site -> bool :=
  fun s => bool_decide (s = site).

(** The merge a computation hands over, when it does. *)
Definition plan (r : ending merge * process) : merge :=
  match r.1 with
  | Done g => g
  | _ => Merge [] [] []
  end.

(** The entry the script derives from [dev] under npm. *)
Definition npmDev : json :=
  JObj [("type", JStr "node");
        ("request", JStr "launch");
        ("name", JStr "npm: dev");
        ("runtimeExecutable", JStr "npm");
        ("runtimeArgs", JArr [JStr "run"; JStr "dev"]);
        ("console", JStr "integratedTerminal");
        ("internalConsoleOptions", JStr "neverOpen");
        ("skipFiles", JArr [JStr "<node_internals>/**"])].

Definition npmBuild : json :=
  JObj [("type", JStr "node");
        ("request", JStr "launch");
        ("name", JStr "npm: build");
        ("runtimeExecutable", JStr "npm");
        ("runtimeArgs", JArr [JStr "run"; JStr "build"]);
        ("console", JStr "integratedTerminal");
        ("internalConsoleOptions", JStr "neverOpen");
        ("skipFiles", JArr [JStr "<node_internals>/**"])].

Definition doc (configurations : list json) : json :=
  JObj [("version", JStr "0.2.0"); ("configurations", JArr configurations)].

Definition packageJson : string := "/proj/package.json".
Definition launchJson : string := "/proj/.vscode/launch.json".
Definition backupJson : string :=
  "/proj/.vscode/launch.backup.2025-07-25T14-33-40-123Z.json".

(** An invocation in [/proj] on 25 July 2025. *)
Definition invoke (args : list string) (answer : option string)
    (faults : io_site -> bool) : world :=
  World args "/proj" "2025-07-25T14:33:40.123Z" answer faults (fun _ => None).

End Scenario.

(** ** The two files a run reads *)

Section Inputs.
Context `{JSON} (w : world).

(** The scripts a run keeps, read off the manifest. *)
Definition manifestScripts (fs : gmap string string) : list (string * json) :=
  match fs !! packageJsonPath w with
  | Some text =>
      match JSON_parse (utf8_decode text) with
      | Some pkg => selectScripts w (prop pkg "scripts")
      | None => []
      end
  | None => []
  end.

(** The entries a run starts from: those of the target file, once it has
    been read and copied. *)
Definition startingEntries (fs : gmap string string) : list json :=
  if io_fails w ReadLaunch || io_fails w WriteBackup then []
  else preRunEntries (fs !! launchJsonPath w).

(** The entry of the script that carries the name of [cfg], if there is
    one. *)
Definition regenerated (names : list string) (cfg : json) : json :=
  match stringName cfg with
  | Some n =>
      match find (fun s => bool_decide (configName w s = n)) names with
      | Some s => makeConfig w s
      | None => cfg
      end
  | None => cfg
  end.

(** Whether the two filters keep a script name. *)
Definition kept (name : string) : bool :=
  negb (includes name "generate-launch")
  && (if nonEmpty (filterPrefix w) then startsWith name (filterPrefix w) else true).

End Inputs.

(** The keys under which [new Map] files a list of entries. *)
Definition nameKeys (items : list json) : list key :=
  imap (fun i cfg => keyOf i (prop cfg "name")) items.

(** ** Instants

    [toISOString] prints an instant as [YYYY-MM-DDTHH:mm:ss.sssZ]. *)

(** The characters the stamp of a backup name replaces. *)
Definition isSeparator (c : ascii) : bool := Ascii.eqb c ":" || Ascii.eqb c ".".

Inductive cclass : Type :=
| Digit
| Lit (c : ascii).

Definition inClass (k : cclass) (c : ascii) : bool :=
  match k with
  | Digit => (48 <=? nat_of_ascii c)%nat && (nat_of_ascii c <=? 57)%nat
  | Lit d => Ascii.eqb c d
  end.

Fixpoint shaped (pat : list cclass) (s : string) : bool :=
  match pat, s with
  | [], EmptyString => true
  | k :: pat', String c s' => inClass k c && shaped pat' s'
  | _, _ => false
  end.

Definition isoPattern : list cclass :=
  [Digit; Digit; Digit; Digit; Lit "-"; Digit; Digit; Lit "-"; Digit; Digit;
   Lit "T"; Digit; Digit; Lit ":"; Digit; Digit; Lit ":"; Digit; Digit;
   Lit "."; Digit; Digit; Digit; Lit "Z"].

Definition isoInstant (s : string) : bool := shaped isoPattern s.

(** ** Target files the script cannot work from

    A document that is [null], whose [configurations] is something truthy
    other than an array, or whose [configurations] holds a [null]. *)
Definition fatalTarget (doc : json) : Prop :=
  doc = JNull
  \/ (exists c, prop doc "configurations" = Some c /\ truthy (Some c) = true
                /\ forall items, c <> JArr items)
  \/ (exists items, prop doc "configurations" = Some (JArr items) /\ JNull ∈ items).

(** ** More scenarios *)

Module Cases.

(** A target file with a [null] among its entries. *)
Definition holed : json := Scenario.doc [Scenario.attach; JNull].

Definition holedProject : gmap string string :=
  {[ Scenario.packageJson := Scenario.render Scenario.manifest;
     Scenario.launchJson := Scenario.render holed ]}.

(** A project that has no target file yet. *)
Definition newProject : gmap string string :=
  {[ Scenario.packageJson := Scenario.render Scenario.manifest ]}.

(** A target file with more than entries in it. *)
Definition compound : json :=
  JObj [("version", JStr "0.1.0");
        ("configurations", JArr [Scenario.attach]);
        ("compounds", JArr [JObj [("name", JStr "All"); ("configurations", JArr [JStr "Attach"])]])].

Definition compoundProject : gmap string string :=
  {[ Scenario.packageJson := Scenario.render Scenario.manifest;
     Scenario.launchJson := Scenario.render compound ]}.

End Cases.

(** * Lemmas *)

(** ** Strings *)

Lemma startsWith_app (p r : string) : startsWith (p +:+ r) p = true.
Proof.
  induction p as [|a p IH]; [done|].
  change (String a p +:+ r) with (String a (p +:+ r)). simpl.
  by rewrite Ascii.eqb_refl.
Qed.

Lemma startsWith_inv (s p : string) :
  startsWith s p = true -> exists r, s = p +:+ r.
Proof.
  revert s. induction p as [|a p IH]; intros s Hs; simpl in *.
  - by exists s.
  - destruct s as [|b s]; [done|].
    destruct (Ascii.eqb a b) eqn:Hab; [|done].
    apply Ascii.eqb_eq in Hab as ->.
    destruct (IH _ Hs) as [r ->]. by exists r.
Qed.

Lemma startsWith_iff (s p : string) :
  startsWith s p = true <-> exists r, s = p +:+ r.
Proof.
  split; [apply startsWith_inv|]. intros [r ->]. apply startsWith_app.
Qed.

Lemma includes_iff (s sub : string) :
  includes s sub = true <-> exists a b, s = a +:+ sub +:+ b.
Proof.
  split.
  - induction s as [|c s IH]; simpl; intros Hs.
    + apply orb_true_iff in Hs as [Hs|]; [|done].
      apply startsWith_inv in Hs as [r Hr]. exists "", r. exact Hr.
    + apply orb_true_iff in Hs as [Hs|Hs].
      * apply startsWith_inv in Hs as [r Hr]. exists "", r. exact Hr.
      * destruct (IH Hs) as (a & b & Hab). exists (String c a), b.
        simpl. by rewrite Hab.
  - intros (a & b & Hab). subst s. induction a as [|c a IH].
    + change ("" +:+ sub +:+ b) with (sub +:+ b).
      destruct (sub +:+ b) eqn:E; simpl; rewrite <- E;
        by rewrite startsWith_app.
    + change (String c a +:+ sub +:+ b) with (String c (a +:+ sub +:+ b)).
      simpl. apply orb_true_iff. by right.
Qed.

Lemma string_app_assoc (a b c : string) : (a +:+ b) +:+ c = a +:+ b +:+ c.
Proof.
  induction a as [|x a IH]; [done|].
  change (String x ((a +:+ b) +:+ c) = String x (a +:+ b +:+ c)). by rewrite IH.
Qed.

(** ** Property lists *)

Lemma keys_setField_in k v o : k ∈ keys (setField k v o).
Proof.
  unfold keys. induction o as [|[k' v'] o IH]; simpl; [set_solver|].
  destruct (String.eqb k' k) eqn:E; simpl.
  - apply String.eqb_eq in E as ->. set_solver.
  - set_solver.
Qed.

Lemma keys_setField k v o x :
  x ∈ keys (setField k v o) <-> x = k \/ x ∈ keys o.
Proof.
  unfold keys. induction o as [|[k' v'] o IH]; simpl; [set_solver|].
  destruct (String.eqb k' k) eqn:E; simpl.
  - apply String.eqb_eq in E as ->. set_solver.
  - rewrite elem_of_cons, IH, elem_of_cons. tauto.
Qed.

Lemma keys_setField_NoDup k v o : NoDup (keys o) -> NoDup (keys (setField k v o)).
Proof.
  unfold keys. induction o as [|[k' v'] o IH]; simpl; intros Hnd.
  - apply NoDup_singleton.
  - apply NoDup_cons in Hnd as [Hk' Hnd].
    destruct (String.eqb k' k) eqn:E; simpl.
    + by apply NoDup_cons.
    + apply String.eqb_neq in E. apply NoDup_cons. split; [|by apply IH].
      intros Hin. apply (keys_setField k v o k') in Hin as [->|Hin]; done.
Qed.

Lemma fromEntries_acc (l o : list (string * json)) x :
  x ∈ keys (fold_left (fun o kv => setField kv.1 kv.2 o) l o)
  <-> x ∈ keys l \/ x ∈ keys o.
Proof.
  revert o. induction l as [|[k v] l IH]; intros o; simpl.
  - unfold keys at 2. simpl. set_solver.
  - rewrite IH, keys_setField. unfold keys at 3. simpl. rewrite elem_of_cons.
    unfold keys. tauto.
Qed.

Lemma keys_fromEntries l x : x ∈ keys (fromEntries l) <-> x ∈ keys l.
Proof.
  unfold fromEntries. rewrite fromEntries_acc. unfold keys at 3. simpl. set_solver.
Qed.

Lemma fromEntries_NoDup l : NoDup (keys (fromEntries l)).
Proof.
  unfold fromEntries.
  assert (Hgen : forall o, NoDup (keys o) ->
            NoDup (keys (fold_left (fun o kv => setField kv.1 kv.2 o) l o))).
  { induction l as [|[k v] l IH]; intros o Ho; simpl; [done|].
    apply IH. by apply keys_setField_NoDup. }
  apply Hgen. apply NoDup_nil_2.
Qed.

Lemma keys_filter (P : string * json -> bool) l x :
  x ∈ keys (filter P l) -> x ∈ keys l /\ exists v, P (x, v) = true.
Proof.
  unfold keys. intros Hx. apply list_elem_of_fmap in Hx as [[k v] [-> Hin]].
  apply list_elem_of_filter in Hin as [HP Hin]. split.
  - apply list_elem_of_fmap. by exists (k, v).
  - exists v. simpl. by destruct (P (k, v)).
Qed.

Lemma keys_filter_intro (P : string * json -> bool) l k v :
  (k, v) ∈ l -> P (k, v) = true -> k ∈ keys (filter P l).
Proof.
  intros Hin HP. unfold keys. apply list_elem_of_fmap. exists (k, v).
  split; [done|]. apply list_elem_of_filter. split; [|done]. by rewrite HP.
Qed.

(** ** Scripts kept by the extractor *)

Lemma selectScripts_NoDup w pkgScripts : NoDup (keys (selectScripts w pkgScripts)).
Proof.
  unfold selectScripts. destruct (nonEmpty (filterPrefix w)); apply fromEntries_NoDup.
Qed.

Lemma selectScripts_in w pkgScripts name :
  name ∈ keys (selectScripts w pkgScripts) ->
  name ∈ keys (entries (orElse pkgScripts (JObj [])))
  /\ includes name "generate-launch" = false
  /\ (nonEmpty (filterPrefix w) = true -> startsWith name (filterPrefix w) = true).
Proof.
  unfold selectScripts. intros Hin.
  assert (Hbase : forall x,
    x ∈ keys (fromEntries (filter (fun e => negb (includes e.1 "generate-launch"))
                (entries (orElse pkgScripts (JObj []))))) ->
    x ∈ keys (entries (orElse pkgScripts (JObj [])))
    /\ includes x "generate-launch" = false).
  { intros x Hx. apply (proj1 (keys_fromEntries _ _)) in Hx.
    apply (keys_filter (fun e => negb (includes e.1 "generate-launch"))) in Hx
      as [Hx [v Hv]].
    split; [done|]. simpl in Hv. by apply negb_true_iff in Hv. }
  destruct (nonEmpty (filterPrefix w)) eqn:Hf.
  - apply (proj1 (keys_fromEntries _ _)) in Hin.
    apply (keys_filter (fun e => startsWith e.1 (filterPrefix w))) in Hin
      as [Hin [v Hv]].
    destruct (Hbase _ Hin) as [? ?]. by repeat split.
  - destruct (Hbase _ Hin) as [? ?]. by repeat split.
Qed.

Lemma keys_elem (l : list (string * json)) k : k ∈ keys l <-> exists v, (k, v) ∈ l.
Proof.
  unfold keys. rewrite list_elem_of_fmap. split.
  - intros [[k' v] [-> Hin]]. by exists v.
  - intros [v Hin]. by exists (k, v).
Qed.

Lemma selectScripts_intro w pkgScripts name :
  name ∈ keys (entries (orElse pkgScripts (JObj []))) ->
  includes name "generate-launch" = false ->
  (nonEmpty (filterPrefix w) = true -> startsWith name (filterPrefix w) = true) ->
  name ∈ keys (selectScripts w pkgScripts).
Proof.
  intros Hin Hincl Hpre. unfold selectScripts.
  apply keys_elem in Hin as [v Hin].
  assert (Hbase : name ∈ keys (fromEntries
            (filter (fun e => negb (includes e.1 "generate-launch"))
               (entries (orElse pkgScripts (JObj [])))))).
  { apply keys_fromEntries.
    apply (keys_filter_intro (fun e => negb (includes e.1 "generate-launch")) _ name v);
      [done|]. simpl. by rewrite Hincl. }
  destruct (nonEmpty (filterPrefix w)) eqn:Hf; [|done].
  apply keys_fromEntries. apply keys_elem in Hbase as [v' Hbase].
  apply (keys_filter_intro (fun e => startsWith e.1 (filterPrefix w)) _ name v');
    [done|]. simpl. by apply Hpre.
Qed.

(** ** The [Map] *)

Lemma Map_has_true m k : Map_has m k = true <-> k ∈ m.*1.
Proof. unfold Map_has. apply bool_decide_eq_true. Qed.

Lemma Map_has_false m k : Map_has m k = false <-> k ∉ m.*1.
Proof. unfold Map_has. apply bool_decide_eq_false. Qed.

Lemma Map_set_fresh k v m : k ∉ m.*1 -> Map_set k v m = m ++ [(k, v)].
Proof.
  induction m as [|[k' v'] m IH]; simpl; intros Hk; [done|].
  apply not_elem_of_cons in Hk as [Hne Hk].
  destruct (decide (k' = k)); [congruence|]. by rewrite IH.
Qed.

Lemma Map_set_keys k v m : k ∈ m.*1 -> (Map_set k v m).*1 = m.*1.
Proof.
  induction m as [|[k' v'] m IH]; simpl; intros Hk; [by apply elem_of_nil in Hk|].
  destruct (decide (k' = k)); [done|].
  apply elem_of_cons in Hk as [->|Hk]; [done|].
  change ((k', v') :: Map_set k v m).*1 with (k' :: (Map_set k v m).*1).
  by rewrite IH.
Qed.

Lemma Map_set_NoDup k v m : NoDup m.*1 -> NoDup (Map_set k v m).*1.
Proof.
  intros Hnd. destruct (decide (k ∈ m.*1)) as [Hin|Hout].
  - by rewrite Map_set_keys.
  - rewrite Map_set_fresh by done. rewrite fmap_app. simpl.
    apply NoDup_app. split; [done|]. split; [|apply NoDup_singleton].
    intros x Hx Hx'. apply list_elem_of_singleton in Hx' as ->. done.
Qed.

Lemma Map_set_has k v m x : x ∈ (Map_set k v m).*1 <-> x = k \/ x ∈ m.*1.
Proof.
  destruct (decide (k ∈ m.*1)) as [Hin|Hout].
  - rewrite Map_set_keys by done. split; [tauto|]. by intros [->|].
  - rewrite Map_set_fresh by done. rewrite fmap_app. simpl.
    rewrite elem_of_app, list_elem_of_singleton. tauto.
Qed.

Lemma Map_get_set_eq k v m : Map_get (Map_set k v m) k = Some v.
Proof.
  induction m as [|[k' v'] m IH]; simpl.
  - by destruct (decide (k = k)).
  - destruct (decide (k' = k)) as [->|Hne]; simpl.
    + by destruct (decide (k = k)).
    + by destruct (decide (k' = k)).
Qed.

Lemma Map_get_set_ne k k' v m : k <> k' -> Map_get (Map_set k v m) k' = Map_get m k'.
Proof.
  intros Hne. induction m as [|[k0 v0] m IH]; simpl.
  - by destruct (decide (k = k')).
  - destruct (decide (k0 = k)) as [->|Hne0]; simpl.
    + by destruct (decide (k = k')).
    + destruct (decide (k0 = k')); [done|]. apply IH.
Qed.

Lemma Map_get_None m k : Map_get m k = None <-> k ∉ m.*1.
Proof.
  induction m as [|[k' v'] m IH]; simpl.
  - split; [intros _; apply not_elem_of_nil|done].
  - destruct (decide (k' = k)) as [->|Hne].
    + split; [done|]. intros Hk. exfalso. apply Hk. apply elem_of_cons. by left.
    + rewrite IH, not_elem_of_cons. split; [by intros ?; split|by intros [_ ?]].
Qed.

Lemma Map_get_Some_elem m k v : Map_get m k = Some v -> (k, v) ∈ m.
Proof.
  induction m as [|[k' v'] m IH]; simpl; [done|].
  destruct (decide (k' = k)) as [->|Hne].
  - intros [= ->]. apply elem_of_cons. by left.
  - intros Hg. apply elem_of_cons. right. by apply IH.
Qed.

Lemma Map_get_is_Some m k : is_Some (Map_get m k) <-> k ∈ m.*1.
Proof.
  destruct (Map_get m k) eqn:E.
  - split; [|by eexists]. intros _. apply Map_get_Some_elem in E.
    apply list_elem_of_fmap. by exists (k, j).
  - apply Map_get_None in E. split; [by intros [? ?]|done].
Qed.

Lemma Map_set_id m k v : Map_get m k = Some v -> Map_set k v m = m.
Proof.
  induction m as [|[k' v'] m IH]; simpl; [done|].
  destruct (decide (k' = k)) as [->|Hne].
  - by intros [= ->].
  - intros Hg. by rewrite IH.
Qed.

Lemma Map_new_snoc pairs k v : Map_new (pairs ++ [(k, v)]) = Map_set k v (Map_new pairs).
Proof. unfold Map_new. by rewrite fold_left_app. Qed.

Lemma Map_new_NoDup pairs : NoDup (Map_new pairs).*1.
Proof.
  induction pairs as [|[k v] pairs IH] using rev_ind.
  - apply NoDup_nil_2.
  - rewrite Map_new_snoc. by apply Map_set_NoDup.
Qed.

Lemma Map_new_id pairs : NoDup pairs.*1 -> Map_new pairs = pairs.
Proof.
  induction pairs as [|[k v] pairs IH] using rev_ind; [done|].
  rewrite fmap_app. simpl. intros Hnd. apply NoDup_app in Hnd as (Hnd & Hdis & _).
  rewrite Map_new_snoc, IH by done. apply Map_set_fresh.
  intros Hin. apply (Hdis k Hin). apply list_elem_of_singleton. done.
Qed.

Lemma Map_set_elem k v m x y : (x, y) ∈ Map_set k v m -> (x, y) = (k, v) \/ (x, y) ∈ m.
Proof.
  induction m as [|[k' v'] m IH]; simpl.
  - intros Hin. apply list_elem_of_singleton in Hin. by left.
  - destruct (decide (k' = k)) as [->|Hne]; rewrite !elem_of_cons; intros [Hin|Hin].
    + by left.
    + right. by right.
    + right. by left.
    + destruct (IH Hin); [by left|]. right. by right.
Qed.

Lemma Map_get_app_l m1 m2 k : k ∈ m1.*1 -> Map_get (m1 ++ m2) k = Map_get m1 k.
Proof.
  induction m1 as [|[k' v'] m1 IH]; simpl; intros Hin; [by apply elem_of_nil in Hin|].
  destruct (decide (k' = k)); [done|].
  apply elem_of_cons in Hin as [->|Hin]; [done|]. by apply IH.
Qed.

Lemma Map_get_app_r m1 m2 k : k ∉ m1.*1 -> Map_get (m1 ++ m2) k = Map_get m2 k.
Proof.
  induction m1 as [|[k' v'] m1 IH]; simpl; intros Hin; [done|].
  apply not_elem_of_cons in Hin as [Hne Hin].
  destruct (decide (k' = k)); [congruence|]. by apply IH.
Qed.

(** ** Identifying names *)

Lemma keyOf_KStr i v s : keyOf i (prop v "name") = KStr s <-> stringName v = Some s.
Proof.
  unfold stringName. destruct (prop v "name") as [[]|]; simpl; split; congruence.
Qed.

Lemma keyed_name m k v s : keyed m -> (k, v) ∈ m -> k = KStr s <-> stringName v = Some s.
Proof.
  intros Hk Hin. destruct (Hk _ _ Hin) as [_ [i ->]]. apply keyOf_KStr.
Qed.

Lemma keyed_nil : keyed [].
Proof. intros k v Hin. by apply elem_of_nil in Hin. Qed.

Lemma keyed_set m k v i :
  keyed m -> isNull v = false -> k = keyOf i (prop v "name") -> keyed (Map_set k v m).
Proof.
  intros Hm Hv Hk x y Hin. apply Map_set_elem in Hin as [[= -> ->]|Hin].
  - split; [done|]. by exists i.
  - by apply Hm.
Qed.

Lemma keyed_cons_inv k v m : keyed ((k, v) :: m) -> keyed m.
Proof. intros Hm x y Hin. apply Hm. apply elem_of_cons. by right. Qed.

Lemma values_unnamed m n :
  keyed m -> Map_get m (KStr n) = None ->
  filter (fun x => stringName x = Some n) (Map_values m) = [].
Proof.
  unfold Map_values. induction m as [|[k v] m IH]; simpl; intros Hk Hg; [done|].
  destruct (decide (k = KStr n)) as [->|Hne]; [done|].
  rewrite filter_cons. destruct (decide (stringName v = Some n)) as [Hn|Hn].
  - exfalso. apply Hne. eapply keyed_name; [exact Hk| |exact Hn].
    apply elem_of_cons. by left.
  - apply IH; [|done]. by eapply keyed_cons_inv.
Qed.

Lemma values_named m n v :
  keyed m -> NoDup m.*1 -> Map_get m (KStr n) = Some v ->
  filter (fun x => stringName x = Some n) (Map_values m) = [v].
Proof.
  unfold Map_values. induction m as [|[k v'] m IH]; simpl; intros Hk Hnd Hg; [done|].
  apply NoDup_cons in Hnd as [Hnotin Hnd].
  pose proof (keyed_cons_inv _ _ _ Hk) as Hk'.
  rewrite filter_cons. destruct (decide (k = KStr n)) as [->|Hne].
  - injection Hg as ->.
    assert (Hn : stringName v = Some n).
    { eapply keyed_name; [exact Hk| |done]. apply elem_of_cons. by left. }
    destruct (decide (stringName v = Some n)); [|done]. f_equal.
    apply (values_unnamed m n Hk'). by apply Map_get_None.
  - destruct (decide (stringName v' = Some n)) as [Hn|Hn].
    + exfalso. apply Hne. eapply keyed_name; [exact Hk| |exact Hn].
      apply elem_of_cons. by left.
    + by apply IH.
Qed.

Lemma names_NoDup m : keyed m -> NoDup m.*1 -> NoDup (omap stringName (Map_values m)).
Proof.
  unfold Map_values. induction m as [|[k v] m IH]; simpl; intros Hk Hnd.
  - apply NoDup_nil_2.
  - apply NoDup_cons in Hnd as [Hnotin Hnd].
    pose proof (keyed_cons_inv _ _ _ Hk) as Hk'.
    destruct (stringName v) as [s|] eqn:Hs; [|by apply IH].
    apply NoDup_cons. split; [|by apply IH].
    intros Hin. apply list_elem_of_omap in Hin as [v' [Hv' Hs']].
    apply list_elem_of_fmap in Hv' as [[k' v''] [-> Hin]]. simpl in Hs'.
    assert (k = KStr s).
    { eapply keyed_name; [exact Hk| |exact Hs]. apply elem_of_cons. by left. }
    assert (k' = KStr s) by (by eapply keyed_name).
    subst. apply Hnotin. apply list_elem_of_fmap. by exists (KStr s, v'').
Qed.

(** ** The merge loop *)

Section Merge.
Context (w : world).

Lemma configName_inj a b : configName w a = configName w b -> a = b.
Proof.
  unfold configName. intros Heq.
  apply (String.app_inj (packageManager w)) in Heq.
  by apply (String.app_inj ": ") in Heq.
Qed.

Lemma makeConfig_name s : stringName (makeConfig w s) = Some (configName w s).
Proof. done. Qed.

Lemma makeConfig_key i s : keyOf i (prop (makeConfig w s) "name") = KStr (configName w s).
Proof. done. Qed.

Lemma addScript_fold existing names m nw ov :
  NoDup names ->
  (forall s, s ∈ names -> KStr (configName w s) ∈ m.*1 <-> ¬ fresh w existing s) ->
  fold_left (addScript w) names (Merge m nw ov)
  = Merge (m ++ added w existing names)
          (nw ++ (configName w <$> filter (fresh w existing) names))
          (ov ++ conflicts w existing names).
Proof.
  revert m nw ov. induction names as [|s names IH]; intros m nw ov Hnd Hm.
  - unfold added, conflicts. simpl. by rewrite !app_nil_r.
  - apply NoDup_cons in Hnd as [Hs Hnd]. simpl. unfold addScript at 2. simpl.
    unfold added, conflicts. rewrite !filter_cons.
    pose proof (Hm s ltac:(apply elem_of_cons; by left)) as Hms.
    destruct (Map_has m (KStr (configName w s))) eqn:Hhas.
    + apply Map_has_true in Hhas. apply Hms in Hhas.
      destruct (decide (fresh w existing s)); [done|].
      destruct (decide (¬ fresh w existing s)); [|done].
      rewrite IH; [|done|].
      * unfold added, conflicts. rewrite fmap_cons. by rewrite <- !app_assoc.
      * intros s' Hs'. apply Hm. apply elem_of_cons. by right.
    + apply Map_has_false in Hhas.
      destruct (decide (fresh w existing s)) as [Hf|Hf];
        [|exfalso; apply Hhas; by apply Hms].
      destruct (decide (¬ fresh w existing s)); [done|].
      rewrite IH; [|done|].
      * unfold added, conflicts. rewrite Map_set_fresh by done.
        rewrite !fmap_cons. by rewrite <- !app_assoc.
      * intros s' Hs'. rewrite Map_set_has.
        rewrite <- (Hm s') by (apply elem_of_cons; by right).
        split; [|tauto]. intros [Heq|]; [|done].
        injection Heq as Heq. apply configName_inj in Heq. by subst.
Qed.

(** The loop in closed form: names free in the existing map are appended
    in manifest order, the others are queued as conflicts, and the
    existing entries stay as they are. *)
Lemma buildConfigs_closed existing scripts :
  NoDup (keys scripts) ->
  buildConfigs w existing scripts
  = Merge (existing ++ added w existing (keys scripts))
          (configName w <$> filter (fresh w existing) (keys scripts))
          (conflicts w existing (keys scripts)).
Proof.
  intros Hnd. unfold buildConfigs. rewrite (addScript_fold existing); [done|done|].
  intros s _. unfold fresh. split; [by intros ? ?|]. intros Hn.
  by destruct (decide (KStr (configName w s) ∈ existing.*1)).
Qed.

Lemma added_keys existing names k :
  k ∈ (added w existing names).*1 ->
  exists s, k = KStr (configName w s) /\ s ∈ names /\ fresh w existing s.
Proof.
  unfold added. rewrite <- list_fmap_compose. intros Hin.
  apply list_elem_of_fmap in Hin as [s [-> Hs]].
  apply list_elem_of_filter in Hs as [Hf Hs]. by exists s.
Qed.

Lemma added_NoDup existing names : NoDup names -> NoDup (added w existing names).*1.
Proof.
  intros Hnd. unfold added. rewrite <- list_fmap_compose.
  apply NoDup_fmap_2; [|by apply NoDup_filter].
  intros a b [= Heq]. by apply configName_inj in Heq.
Qed.

Lemma conflicts_elem existing names n c :
  (n, c) ∈ conflicts w existing names ->
  exists s, n = configName w s /\ c = makeConfig w s /\ s ∈ names
            /\ KStr n ∈ existing.*1.
Proof.
  unfold conflicts. intros Hin. apply list_elem_of_fmap in Hin as [s [[= -> ->] Hs]].
  apply list_elem_of_filter in Hs as [Hf Hs]. exists s. repeat split; [done|].
  unfold fresh in Hf. by destruct (decide (KStr (configName w s) ∈ existing.*1)).
Qed.

Lemma conflicts_names_NoDup existing names :
  NoDup names -> NoDup (conflicts w existing names).*1.
Proof.
  intros Hnd. unfold conflicts. rewrite <- list_fmap_compose.
  apply NoDup_fmap_2; [|by apply NoDup_filter].
  intros a b Heq. simpl in Heq. by apply configName_inj in Heq.
Qed.

Lemma merged_NoDup existing names :
  NoDup existing.*1 -> NoDup names -> NoDup (existing ++ added w existing names).*1.
Proof.
  intros He Hn. rewrite fmap_app. apply NoDup_app. split; [done|].
  split; [|by apply added_NoDup].
  intros k Hk Hk'. apply added_keys in Hk' as (s & -> & _ & Hf). by apply Hf.
Qed.

Lemma merged_keyed existing names : keyed existing -> keyed (existing ++ added w existing names).
Proof.
  intros He k v Hin. apply elem_of_app in Hin as [Hin|Hin]; [by apply He|].
  unfold added in Hin. apply list_elem_of_fmap in Hin as [s [[= -> ->] _]].
  split; [done|]. by exists 0%nat.
Qed.

(** *** Applying the overwrites *)

Lemma overwriteAll_snoc m ov n c :
  overwriteAll m (ov ++ [(n, c)]) = Map_set (KStr n) c (overwriteAll m ov).
Proof. unfold overwriteAll. by rewrite fold_left_app. Qed.

Lemma overwriteAll_NoDup m ov : NoDup m.*1 -> NoDup (overwriteAll m ov).*1.
Proof.
  intros Hm. induction ov as [|[n c] ov IH] using rev_ind; [done|].
  rewrite overwriteAll_snoc. by apply Map_set_NoDup.
Qed.

Lemma overwriteAll_keyed m ov :
  keyed m -> (forall n c, (n, c) ∈ ov -> stringName c = Some n /\ isNull c = false) ->
  keyed (overwriteAll m ov).
Proof.
  intros Hm. induction ov as [|[n c] ov IH] using rev_ind; intros Hov; [done|].
  rewrite overwriteAll_snoc.
  destruct (Hov n c) as [Hn Hc]; [apply elem_of_app; right; by apply list_elem_of_singleton|].
  apply (keyed_set _ _ _ 0%nat); [|done|].
  - apply IH. intros n' c' Hin. apply Hov. apply elem_of_app. by left.
  - symmetry. by apply keyOf_KStr.
Qed.

Lemma overwriteAll_other m ov k :
  (forall n, k = KStr n -> n ∉ ov.*1) ->
  Map_get (overwriteAll m ov) k = Map_get m k.
Proof.
  induction ov as [|[n c] ov IH] using rev_ind; intros Hk; [done|].
  rewrite overwriteAll_snoc. rewrite Map_get_set_ne.
  - apply IH. intros n' Hn' Hin. apply (Hk n' Hn'). rewrite fmap_app.
    apply elem_of_app. by left.
  - intros <-. apply (Hk n eq_refl). rewrite fmap_app. apply elem_of_app. right.
    simpl. by apply list_elem_of_singleton.
Qed.

Lemma overwriteAll_bound m ov n c :
  NoDup ov.*1 -> (n, c) ∈ ov -> Map_get (overwriteAll m ov) (KStr n) = Some c.
Proof.
  induction ov as [|[n' c'] ov IH] using rev_ind; intros Hnd Hin;
    [by apply elem_of_nil in Hin|].
  rewrite overwriteAll_snoc. rewrite fmap_app in Hnd. simpl in Hnd.
  apply NoDup_app in Hnd as (Hnd & Hdis & _).
  apply elem_of_app in Hin as [Hin|Hin].
  - rewrite Map_get_set_ne; [by apply IH|].
    intros [= ->]. apply (Hdis n).
    + apply list_elem_of_fmap. by exists (n, c).
    + by apply list_elem_of_singleton.
  - apply list_elem_of_singleton in Hin as [= -> ->]. apply Map_get_set_eq.
Qed.

Lemma overwriteAll_same m ov :
  (forall n c, (n, c) ∈ ov -> Map_get m (KStr n) = Some c) -> overwriteAll m ov = m.
Proof.
  induction ov as [|[n c] ov IH] using rev_ind; intros Hov; [done|].
  rewrite overwriteAll_snoc, IH.
  - apply Map_set_id. apply Hov. apply elem_of_app. right.
    by apply list_elem_of_singleton.
  - intros n' c' Hin. apply Hov. apply elem_of_app. by left.
Qed.

End Merge.

(** ** The map built from the existing entries *)

Lemma namePairs_inv v pairs :
  namePairs v = Some pairs ->
  exists items, v = JArr items
    /\ Forall (fun cfg => isNull cfg = false) items
    /\ pairs = imap (fun i cfg => (keyOf i (prop cfg "name"), cfg)) items.
Proof.
  destruct v as [| | | |items|]; simpl; try done.
  destruct (forallb _ items) eqn:Hall; [|done]. intros [= <-].
  exists items. repeat split. apply Forall_forall. intros x Hx.
  rewrite forallb_forall in Hall. apply list_elem_of_In in Hx.
  specialize (Hall x Hx). by destruct (isNull x).
Qed.

Lemma Map_new_keyed pairs :
  (forall k v, (k, v) ∈ pairs -> isNull v = false /\ exists i, k = keyOf i (prop v "name")) ->
  keyed (Map_new pairs).
Proof.
  induction pairs as [|[k v] pairs IH] using rev_ind; intros Hp.
  - apply keyed_nil.
  - rewrite Map_new_snoc.
    destruct (Hp k v) as [Hv [i Hi]];
      [apply elem_of_app; right; by apply list_elem_of_singleton|].
    apply (keyed_set _ _ _ i); [|done|done].
    apply IH. intros k' v' Hin. apply Hp. apply elem_of_app. by left.
Qed.

Lemma existing_keyed items :
  Forall (fun cfg => isNull cfg = false) items ->
  keyed (Map_new (imap (fun i cfg => (keyOf i (prop cfg "name"), cfg)) items)).
Proof.
  intros Hall. apply Map_new_keyed. intros k v Hin.
  apply elem_of_lookup_imap in Hin as (i & x & [= -> ->] & Hx).
  split; [|by exists i].
  rewrite Forall_forall in Hall. apply Hall. by eapply list_elem_of_lookup_2.
Qed.

(** Last write wins: a name is bound to the last existing entry carrying it. *)
Lemma existing_last items n :
  Map_get (Map_new (imap (fun i cfg => (keyOf i (prop cfg "name"), cfg)) items)) (KStr n)
  = last (filter (fun v => stringName v = Some n) items).
Proof.
  induction items as [|x items IH] using rev_ind; [done|].
  rewrite imap_app. simpl. rewrite Map_new_snoc, filter_app.
  rewrite filter_cons, filter_nil.
  destruct (decide (stringName x = Some n)) as [Hn|Hn].
  - apply (keyOf_KStr (length items + 0)) in Hn as Hk. rewrite Hk.
    by rewrite Map_get_set_eq, last_snoc.
  - rewrite app_nil_r, Map_get_set_ne; [done|].
    intros Hk. apply Hn. by eapply keyOf_KStr.
Qed.

(** ** Running the stages *)

Ltac exec :=
  unfold main, prepare, loadScripts, ensureVscodeDir, loadExisting, loadConfigMap,
    confirmAndSave, promptYesNo, getProp, parse, existsSync, readFileSync,
    writeFileSync, mkdirSync, console_error, console_warn, console_log, emit,
    process_exit, throw, tryCatch;
  unfold mbind, M_bind, mret, M_ret; simpl.

(** Paths of one working directory never coincide. *)
Ltac differ Hc H :=
  unfold getTimestampedBackupPath, launchJsonPath, packageJsonPath, vscodeDir,
    path_join in H;
  rewrite <- Hc in H;
  rewrite ?string_app_assoc in H;
  apply String.app_inj in H;
  unfold String.append in H; simpl in H; discriminate H.

Lemma backup_not_launch w w' : cwd w = cwd w' -> getTimestampedBackupPath w <> launchJsonPath w'.
Proof. intros Hc Heq. differ Hc Heq. Qed.

Lemma backup_not_manifest w w' : cwd w = cwd w' -> getTimestampedBackupPath w <> packageJsonPath w'.
Proof. intros Hc Heq. differ Hc Heq. Qed.

Lemma launch_not_manifest w w' : cwd w = cwd w' -> launchJsonPath w <> packageJsonPath w'.
Proof. intros Hc Heq. differ Hc Heq. Qed.

Lemma vscode_not_manifest w w' : cwd w = cwd w' -> vscodeDir w <> packageJsonPath w'.
Proof. intros Hc Heq. differ Hc Heq. Qed.

Lemma vscode_not_launch w w' : cwd w = cwd w' -> vscodeDir w <> launchJsonPath w'.
Proof. intros Hc Heq. differ Hc Heq. Qed.

(** Every stage ends the way its relation says. *)
Section Stages.
Context `{JSON} (w : world).

(** *** The script extractor *)

Lemma loadScripts_run st :
  loadScripts_result w st (loadScripts w st).1 (loadScripts w st).2.
Proof.
  exec. case_bool_decide as Hf; simpl.
  2:{ apply LS_missing. exact Hf. }
  assert (Hfound : found (packageJsonPath w) st) by exact Hf. clear Hf.
  destruct (io_fails w ReadManifest) eqn:Hio; simpl.
  { apply LS_unread; [done|by left]. }
  destruct (files st !! packageJsonPath w) as [text|] eqn:Ht; simpl.
  2:{ apply LS_unread; [done|by right]. }
  destruct (JSON_parse (utf8_decode text)) as [pkg|] eqn:Hp; simpl; [|by eapply LS_malformed].
  destruct (isNull pkg) eqn:Hn; simpl.
  { destruct pkg; try done. by eapply LS_null. }
  destruct (length (keys (selectScripts w (prop pkg "scripts"))) =? 0)%nat eqn:Hl; simpl.
  - apply Nat.eqb_eq in Hl. apply length_zero_iff_nil in Hl.
    by eapply LS_nothing.
  - apply Nat.eqb_neq in Hl. destruct st. eapply LS_scripts; try done.
    intros Hnil. by rewrite Hnil in Hl.
Qed.

(** *** The .vscode directory *)

Lemma ensureVscodeDir_run st :
  ensureVscodeDir_result w st (ensureVscodeDir w st).1 (ensureVscodeDir w st).2.
Proof.
  exec. case_bool_decide as Hf; simpl.
  - destruct st. by apply EV_present.
  - destruct (io_fails w MkdirVscode) eqn:Hio; simpl.
    + by apply EV_failed.
    + by apply EV_created.
Qed.

(** *** Backup and load *)

Lemma loadExisting_run st :
  loadExisting_result w st (loadExisting w st).1 (loadExisting w st).2.
Proof.
  exec. case_bool_decide as Hf; simpl.
  2:{ destruct st. by apply LE_absent. }
  assert (Hfound : found (launchJsonPath w) st) by exact Hf. clear Hf.
  destruct (io_fails w ReadLaunch) eqn:Hr; simpl.
  { apply LE_unread; [done|by left]. }
  destruct (files st !! launchJsonPath w) as [text|] eqn:Ht; simpl.
  2:{ apply LE_unread; [done|by right]. }
  destruct (io_fails w WriteBackup) eqn:Hb; simpl.
  { by eapply LE_nobackup. }
  destruct (JSON_parse (utf8_decode text)) as [doc|] eqn:Hp; simpl.
  - by eapply LE_parsed.
  - rewrite <- app_assoc. by eapply LE_unparsed.
Qed.

(** *** The working map *)

Lemma loadConfigMap_run doc st :
  loadConfigMap_result doc st (loadConfigMap doc st).1 (loadConfigMap doc st).2.
Proof.
  exec. destruct (isNull doc) eqn:Hn; simpl.
  { apply LC_thrown. by left. }
  destruct (namePairs _) as [pairs|] eqn:Hp; simpl.
  - apply namePairs_inv in Hp as (items & Hitems & Hall & ->). by apply LC_map.
  - apply LC_thrown. by right.
Qed.

(** *** The confirmation gate and the writer *)

Lemma confirmAndSave_run g st :
  confirmAndSave_result w g st (confirmAndSave w g st).1 (confirmAndSave w g st).2.
Proof.
  assert (Hlen : (0 <? length (configsToOverwrite g))%nat = false ->
            configsToOverwrite g = []).
  { intros Hl. apply Nat.ltb_ge in Hl. apply length_zero_iff_nil. lia. }
  assert (Hpos : (0 <? length (configsToOverwrite g))%nat = true ->
            configsToOverwrite g <> []).
  { intros Hl Hnil. rewrite Hnil in Hl. done. }
  pose proof (CS_pending w g st) as Hpending.
  pose proof (CS_failed w g st) as Hfailed.
  pose proof (CS_saved w g st) as Hsaved.
  pose proof (D_auto w g) as Hauto.
  pose proof (D_moot w g) as Hmoot.
  pose proof (D_answer w g) as Hanswer.
  unfold say, verdict, finalMap in *. exec.
  destruct (0 <? length (configsToOverwrite g))%nat eqn:Hn;
    destruct (autoYes w) eqn:Ha; simpl.
  - destruct (io_fails w WriteLaunch) eqn:Hio; simpl.
    + apply (Hfailed true []); auto.
    + rewrite <- app_assoc. apply (Hsaved true []); auto.
  - destruct (stdin w) as [answer|] eqn:Hin; simpl; [|by apply Hpending; auto].
    destruct (io_fails w WriteLaunch) eqn:Hio; simpl; rewrite <- !app_assoc.
    + apply (Hfailed _ _ (Hanswer answer eq_refl (Hpos eq_refl) eq_refl) eq_refl).
    + apply (Hsaved _ _ (Hanswer answer eq_refl (Hpos eq_refl) eq_refl) eq_refl).
  - destruct (io_fails w WriteLaunch) eqn:Hio; simpl.
    + apply (Hfailed true []); auto.
    + rewrite <- app_assoc. apply (Hsaved true []); auto.
  - destruct (io_fails w WriteLaunch) eqn:Hio; simpl.
    + apply (Hfailed false []); auto.
    + rewrite <- app_assoc. apply (Hsaved false []); auto.
Qed.

End Stages.

Lemma questions_app a b : questions (a ++ b) = (questions a + questions b)%nat.
Proof. unfold questions. by rewrite filter_app, length_app. Qed.

Ltac stage_by L :=
  let R := fresh "R" in
  pose proof L as R;
  match type of R with
  | _ (?m).1 (?m).2 => destruct m as [? ?] eqn:?
  end;
  simpl in R; inversion R; subst; clear R; simpl.

Ltac stage :=
  match goal with
  | |- context [loadScripts ?w ?st] => stage_by (loadScripts_run w st)
  | |- context [ensureVscodeDir ?w ?st] => stage_by (ensureVscodeDir_run w st)
  | |- context [loadExisting ?w ?st] => stage_by (loadExisting_run w st)
  | |- context [loadConfigMap ?doc ?st] => stage_by (loadConfigMap_run doc st)
  | |- context [confirmAndSave ?w ?g ?st] => stage_by (confirmAndSave_run w g st)
  end.

(** Whatever a write that failed has left. *)
Ltac leftover :=
  unfold failedWrite in *;
  repeat match goal with
         | |- context [io_wrote ?w ?site] => destruct (io_wrote w site) eqn:?
         end;
  simpl.

(** ** The whole run *)

Section Whole.
Context `{JSON} (w : world).

(** What [prepare] leaves behind, however it ends. *)
Lemma prepare_frame st r st' :
  prepare w st = (r, st') ->
  questions (console st') = questions (console st)
  /\ (forall p, p <> getTimestampedBackupPath w -> files st' !! p = files st !! p)
  /\ (forall c, r = Exited c ->
        (c = 1%Z /\ ¬ found (packageJsonPath w) st
           /\ st' = say st [ConsoleError NoPackageJson])
        \/ (c = 0%Z /\ found (packageJsonPath w) st /\ files st' = files st))
  /\ r <> Pending.
Proof.
  unfold prepare, mbind, M_bind.
  stage;
    [intros [= <- <-]; simpl; rewrite ?questions_app; simpl;
     repeat split; try done; try lia; intros c [= <-]; auto ..|].
  { right. repeat split. left. by eexists. }
  stage; [| |intros [= <- <-]; by repeat split].
  all: stage.
  all: try stage.
  all: intros [= <- <-]; unfold failedWrite; try destruct (io_wrote w WriteBackup).
  all: simpl; rewrite ?questions_app; simpl.
  all: repeat split; try done; try lia.
  all: intros q Hq; by rewrite lookup_insert_ne.
Qed.

(** When [prepare] hands a merge to the gate, the manifest was read and
    gave the scripts, and the map was built either from the entries of
    the target file, whose text is by then in the backup, or from none. *)
Lemma prepare_Done st g st' :
  prepare w st = (Done g, st') ->
  exists text pkg items,
    files st !! packageJsonPath w = Some text
    /\ io_fails w ReadManifest = false
    /\ JSON_parse (utf8_decode text) = Some pkg
    /\ isNull pkg = false
    /\ keys (selectScripts w (prop pkg "scripts")) <> []
    /\ Forall (fun cfg => isNull cfg = false) items
    /\ g = buildConfigs w (existingMap items) (selectScripts w (prop pkg "scripts"))
    /\ (items = []
        \/ (exists target,
              files st !! launchJsonPath w = Some target
              /\ io_fails w ReadLaunch = false
              /\ io_fails w WriteBackup = false
              /\ items = preRunEntries (Some target)
              /\ files st' = <[getTimestampedBackupPath w :=
                                  utf8_encode (utf8_decode target)]> (files st))).
Proof.
  unfold prepare, mbind, M_bind.
  stage; try done.
  stage; try done.
  all: stage.
  all: try stage; try done.
  all: intros [= <- <-].
  all: exists text, pkg.
  all: try (exists []; split_and!; try done; by left).
  all: match goal with
       | Hp : JSON_parse (utf8_decode ?t) = Some ?d, Ho : orElse _ _ = JArr ?items |- _ =>
           exists items; split_and!; try done; right; exists t;
           split_and!; try done; unfold preRunEntries; by rewrite Hp, Ho
       end.
Qed.

End Whole.

Lemma Map_get_elem m k v : NoDup m.*1 -> (k, v) ∈ m -> Map_get m k = Some v.
Proof.
  induction m as [|[k' v'] m IH]; simpl; intros Hnd Hin; [by apply elem_of_nil in Hin|].
  apply NoDup_cons in Hnd as [Hk' Hnd].
  apply elem_of_cons in Hin as [[= -> ->]|Hin].
  - by destruct (decide (k' = k')).
  - destruct (decide (k' = k)) as [->|Hne]; [|by apply IH].
    exfalso. apply Hk'. apply list_elem_of_fmap. by exists (k, v).
Qed.

Section Outcome.
Context `{JSON} (w : world).

(** *** What the merge holds *)

Lemma existingMap_NoDup items : NoDup (existingMap items).*1.
Proof. apply Map_new_NoDup. Qed.

Section Built.
Context (items : list json) (scripts : list (string * json)).
Hypothesis Hitems : Forall (fun cfg => isNull cfg = false) items.
Hypothesis Hscripts : NoDup (keys scripts).

Let g := buildConfigs w (existingMap items) scripts.

Lemma built_map :
  configMap g = existingMap items ++ added w (existingMap items) (keys scripts).
Proof. unfold g. by rewrite buildConfigs_closed. Qed.

Lemma built_new :
  newConfigs g = configName w <$> filter (fresh w (existingMap items)) (keys scripts).
Proof. unfold g. by rewrite buildConfigs_closed. Qed.

Lemma built_conflicts :
  configsToOverwrite g = conflicts w (existingMap items) (keys scripts).
Proof. unfold g. by rewrite buildConfigs_closed. Qed.

Lemma built_synthesized n :
  n ∈ newConfigs g \/ n ∈ (configsToOverwrite g).*1 ->
  exists s, s ∈ keys scripts /\ n = configName w s.
Proof.
  rewrite built_new, built_conflicts. intros [Hin|Hin].
  - apply list_elem_of_fmap in Hin as [s [-> Hs]].
    apply list_elem_of_filter in Hs as [_ Hs]. by exists s.
  - apply list_elem_of_fmap in Hin as [[n' c] [-> Hin]].
    apply conflicts_elem in Hin as (s & -> & _ & Hs & _). by exists s.
Qed.

Lemma final_NoDup yes : NoDup (finalMap g yes).*1.
Proof.
  unfold finalMap. rewrite built_map.
  assert (NoDup (existingMap items ++ added w (existingMap items) (keys scripts)).*1)
    by (apply merged_NoDup; [apply existingMap_NoDup|done]).
  destruct yes; [|done]. by apply overwriteAll_NoDup.
Qed.

Lemma final_keyed yes : keyed (finalMap g yes).
Proof.
  unfold finalMap. rewrite built_map, built_conflicts.
  assert (keyed (existingMap items ++ added w (existingMap items) (keys scripts)))
    by (apply merged_keyed; by apply existing_keyed).
  destruct yes; [|done]. apply overwriteAll_keyed; [done|].
  intros n c Hin. by apply conflicts_elem in Hin as (s & -> & -> & _).
Qed.

(** A name the loop never touched is bound as in the existing map. *)
Lemma final_untouched yes n :
  (forall s, s ∈ keys scripts -> n <> configName w s) ->
  Map_get (finalMap g yes) (KStr n) = Map_get (existingMap items) (KStr n).
Proof.
  intros Hn. unfold finalMap. rewrite built_map, built_conflicts.
  assert (Hbase : Map_get (existingMap items ++ added w (existingMap items) (keys scripts))
                    (KStr n) = Map_get (existingMap items) (KStr n)).
  { destruct (decide (KStr n ∈ (existingMap items).*1)) as [Hin|Hout].
    - by apply Map_get_app_l.
    - rewrite Map_get_app_r by done.
      transitivity (@None json); [|symmetry; by apply Map_get_None].
      apply Map_get_None. intros Hin.
      apply added_keys in Hin as (s & [= ->] & Hs & _). by apply (Hn s). }
  destruct yes; [|done]. rewrite overwriteAll_other; [done|].
  intros n' [= <-] Hin. apply list_elem_of_fmap in Hin as [[n'' c] [-> Hin]].
  apply conflicts_elem in Hin as (s & -> & _ & Hs & _). by apply (Hn s).
Qed.

(** A conflicting name is bound to the new entry after a yes, and to
    the last existing entry of that name after a no. *)
Lemma final_conflict yes n c :
  (n, c) ∈ configsToOverwrite g ->
  exists s old,
    s ∈ keys scripts /\ n = configName w s /\ c = makeConfig w s
    /\ last (filter (fun v => stringName v = Some n) items) = Some old
    /\ filter (fun v => stringName v = Some n) (Map_values (finalMap g yes))
       = [if yes then c else old].
Proof.
  rewrite built_conflicts. intros Hin.
  pose proof (conflicts_elem _ _ _ _ _ Hin) as (s & -> & -> & Hs & Hk).
  apply Map_get_is_Some in Hk as [old Hold].
  exists s, old. split_and!; try done.
  { unfold existingMap in Hold. by rewrite existing_last in Hold. }
  apply values_named; [apply final_keyed|apply final_NoDup|].
  unfold finalMap. rewrite built_map, built_conflicts. destruct yes.
  - apply overwriteAll_bound; [|done]. by apply conflicts_names_NoDup.
  - rewrite Map_get_app_l; [done|]. apply Map_get_is_Some. by eexists.
Qed.

(** Every script is bound to its entry once the overwrites are applied. *)
Lemma final_script s :
  s ∈ keys scripts ->
  Map_get (finalMap g true) (KStr (configName w s)) = Some (makeConfig w s).
Proof.
  intros Hs. unfold finalMap. rewrite built_map, built_conflicts.
  destruct (decide (fresh w (existingMap items) s)) as [Hf|Hf].
  - rewrite overwriteAll_other.
    + rewrite Map_get_app_r by exact Hf.
      apply Map_get_elem; [by apply added_NoDup|].
      unfold added. apply list_elem_of_fmap. exists s. split; [done|].
      by apply list_elem_of_filter.
    + intros n [= <-] Hin. apply list_elem_of_fmap in Hin as [[n' c] [Heq Hin]].
      simpl in Heq. subst n'.
      apply conflicts_elem in Hin as (s' & Heq & _ & _ & Hk). by apply Hf.
  - apply overwriteAll_bound; [by apply conflicts_names_NoDup|].
    unfold conflicts. apply list_elem_of_fmap. exists s. split; [done|].
    by apply list_elem_of_filter.
Qed.

End Built.

(** *** What a completed run wrote *)

Lemma run_Done fs ds st' :
  run w fs ds = (Done tt, st') ->
  exists g st1 yes asked,
    prepare w (Process fs ds []) = (Done g, st1)
    /\ decision w g yes asked
    /\ io_fails w WriteLaunch = false
    /\ files st' = <[launchJsonPath w :=
                      utf8_encode (JSON_stringify (mergedLaunchJson (Map_values (finalMap g yes))))]>
                     (files st1)
    /\ dirs st' = dirs st1
    /\ questions (console st') = questions asked.
Proof.
  unfold run, main, mbind, M_bind.
  destruct (prepare w (Process fs ds [])) as [[g|c|e|] st1] eqn:Hp; try done.
  destruct (prepare_frame w _ _ _ Hp) as (Hq & _).
  stage; try done. intros [= <-]. exists g, st1, yes, asked.
  split_and!; try done. simpl. rewrite !questions_app. simpl in Hq.
  rewrite Hq. unfold verdict, questions. simpl. lia.
Qed.

End Outcome.

(** ** Answers at the prompt *)

Lemma trimEnd_blank s : trimEnd s = "" <-> blank s = true.
Proof.
  induction s as [|c s IH]; simpl; [done|].
  destruct (trimEnd s) eqn:Ht.
  - destruct (isWhiteSpace c); simpl; [by rewrite <- IH|]. split; done.
  - split; [done|]. intros Hb. apply andb_true_iff in Hb as [_ Hb].
    apply IH in Hb. done.
Qed.

Lemma trimStart_blank l s : blank l = true -> trimStart (l +:+ s) = trimStart s.
Proof.
  induction l as [|c l IH]; [done|]. simpl. intros Hb.
  apply andb_true_iff in Hb as [Hc Hb].
  change (String c l +:+ s) with (String c (l +:+ s)). simpl.
  rewrite Hc. by apply IH.
Qed.

Lemma trimStart_split s :
  exists l, s = l +:+ trimStart s /\ blank l = true.
Proof.
  induction s as [|c s (l & Hl & Hb)]; simpl; [by exists ""|].
  destruct (isWhiteSpace c) eqn:Hc.
  - exists (String c l). split.
    + change (String c l +:+ trimStart s) with (String c (l +:+ trimStart s)).
      by rewrite <- Hl.
    + simpl. by rewrite Hc.
  - by exists "".
Qed.

Lemma trimStart_head s c r : trimStart s = String c r -> isWhiteSpace c = false.
Proof.
  induction s as [|c' s IH]; simpl; [done|].
  destruct (isWhiteSpace c') eqn:Hc; [done|]. by intros [= <- <-].
Qed.

Lemma trimEnd_one s c : trimEnd s = String c "" -> exists r, s = String c r /\ blank r = true.
Proof.
  destruct s as [|c' s]; simpl; [done|].
  destruct (trimEnd s) eqn:Ht.
  - destruct (isWhiteSpace c'); [done|]. intros [= <-]. exists s.
    split; [done|]. by apply trimEnd_blank.
  - done.
Qed.

Lemma trim_one l c r :
  blank l = true -> isWhiteSpace c = false -> blank r = true ->
  trim (l +:+ String c r) = String c "".
Proof.
  intros Hl Hc Hr. unfold trim. rewrite trimStart_blank by done. simpl.
  rewrite Hc. simpl. apply trimEnd_blank in Hr. rewrite Hr. by rewrite Hc.
Qed.

Lemma lowerChar_y c : lowerChar c = "y"%char <-> c = "y"%char \/ c = "Y"%char.
Proof.
  split.
  - destruct c as [[] [] [] [] [] [] [] []]; vm_compute; intros Hc;
      first [discriminate Hc | by left | by right].
  - by intros [-> | ->].
Qed.

Lemma toLowerCase_y s : toLowerCase s = "y" <-> s = "y" \/ s = "Y".
Proof.
  split.
  - destruct s as [|c [|c' s]]; simpl; try done.
    intros [= Hc]. apply lowerChar_y in Hc as [-> | ->]; auto.
  - by intros [-> | ->].
Qed.

(** The answers that count as a yes: one [y] or [Y] with white space
    around it, and nothing else. *)
Lemma saysYes_iff answer :
  saysYes answer = true <->
  exists l c r, answer = l +:+ String c r
    /\ blank l = true /\ blank r = true /\ (c = "y"%char \/ c = "Y"%char).
Proof.
  unfold saysYes. rewrite bool_decide_eq_true, toLowerCase_y. split.
  - intros Ht.
    assert (Hone : exists c, trim answer = String c "" /\ (c = "y"%char \/ c = "Y"%char)).
    { destruct Ht as [Ht|Ht]; rewrite Ht; eexists; split; eauto. }
    destruct Hone as (c & Hc & Hy). unfold trim in Hc.
    destruct (trimStart_split answer) as (l & Hl & Hb).
    apply trimEnd_one in Hc as (r & Hr & Hbr).
    exists l, c, r. rewrite Hr in Hl. done.
  - intros (l & c & r & -> & Hl & Hr & Hy).
    rewrite trim_one; [| done | by destruct Hy as [-> | ->] | done].
    destruct Hy as [-> | ->]; auto.
Qed.


(** ** The gate, and what the merge hands it *)

Section Groundwork.
Context `{JSON}.

Lemma selectScripts_none w : selectScripts w None = [].
Proof. unfold selectScripts. simpl. by destruct (nonEmpty (filterPrefix w)). Qed.

Lemma selectScripts_empty w : selectScripts w (Some (JObj [])) = [].
Proof. unfold selectScripts. simpl. by destruct (nonEmpty (filterPrefix w)). Qed.

Lemma decision_questions w g yes asked :
  decision w g yes asked ->
  questions asked = (if decide (configsToOverwrite g = []) then 0 else
                     if autoYes w then 0 else 1)%nat.
Proof.
  intros [Ha|Ha Hn|answer Ha Hn Hs].
  - rewrite Ha. by destruct (decide _).
  - by destruct (decide _).
  - rewrite Ha. by destruct (decide _).
Qed.

Lemma loadConfigMap_items doc st items :
  isNull doc = false ->
  orElse (prop doc "configurations") (JArr []) = JArr items ->
  Forall (fun cfg => isNull cfg = false) items ->
  loadConfigMap doc st = (Done (existingMap items), st).
Proof.
  intros Hn Ho Hall. exec. rewrite Hn. simpl. rewrite Ho. simpl.
  assert (Hb : forallb (fun cfg => negb (isNull cfg)) items = true).
  { apply forallb_forall. intros x Hx. apply list_elem_of_In in Hx.
    rewrite Forall_forall in Hall. by rewrite (Hall x Hx). }
  rewrite Hb. by destruct st.
Qed.

(** What the gate writes, once [prepare] has handed over the merge and an
    answer is there to be read. *)
Lemma gate_outcome w fs ds g st1 answer :
  prepare w (Process fs ds []) = (Done g, st1) ->
  autoYes w = false ->
  stdin w = Some answer ->
  io_fails w WriteLaunch = false ->
  let yes := if decide (configsToOverwrite g = []) then false else saysYes answer in
  let asked := if decide (configsToOverwrite g = []) then []
               else [Question (OverwriteAll (length (configsToOverwrite g)))] in
  run w fs ds
  = (Done tt,
     Process
       (<[launchJsonPath w :=
            utf8_encode (JSON_stringify (mergedLaunchJson (Map_values (finalMap g yes))))]>
          (files st1))
       (dirs st1)
       (console st1 ++ asked ++
          [verdict g yes;
           ConsoleLog (Updated (length (newConfigs g)
             + (if yes then length (configsToOverwrite g) else 0)))])).
Proof.
  intros Hp Hauto Hin Hio yes asked. unfold run, main, mbind, M_bind. rewrite Hp.
  stage; try congruence.
  match goal with Hd : decision _ _ _ _ |- _ => destruct Hd as [Ha|Ha Hn|a Ha Hn Hs] end.
  - congruence.
  - unfold yes, asked. by destruct (decide _).
  - unfold yes, asked. destruct (decide _); [done|].
    assert (a = answer) as -> by congruence. done.
Qed.

Lemma conflict_bindings w fs ds g st1 yes n c :
  prepare w (Process fs ds []) = (Done g, st1) ->
  (n, c) ∈ configsToOverwrite g ->
  exists s old,
    n = configName w s /\ c = makeConfig w s
    /\ last (filter (fun v => stringName v = Some n)
               (preRunEntries (fs !! launchJsonPath w))) = Some old
    /\ filter (fun v => stringName v = Some n) (Map_values (finalMap g yes))
       = [if yes then c else old].
Proof.
  intros Hp Hin.
  apply prepare_Done in Hp as (text & pkg & items & _ & _ & _ & _ & _ & Hitems & -> & Hsrc).
  pose proof (selectScripts_NoDup w (prop pkg "scripts")) as Hnd.
  destruct (final_conflict w items _ Hitems Hnd yes n c Hin)
    as (s & old & _ & -> & -> & Hold & Hfinal).
  exists s, old. split_and!; try done.
  destruct Hsrc as [-> | (target & Ht & _ & _ & -> & _)]; [done|].
  simpl in Ht. by rewrite Ht.
Qed.

End Groundwork.

(** ** Reading back what was written *)

Lemma keyOf_ref i name : isRef name = true -> keyOf i name = KRef i.
Proof. by destruct name as [[]|]. Qed.

Lemma keyOf_value i j name : isRef name = false -> keyOf i name = keyOf j name.
Proof. by destruct name as [[]|]. Qed.

Lemma keyOf_not_ref i r name : isRef name = false -> keyOf i name <> KRef r.
Proof. by destruct name as [[]|]. Qed.

Lemma rekeyFrom_cons j v values :
  rekeyFrom j (v :: values) = (keyOf j (prop v "name"), v) :: rekeyFrom (S j) values.
Proof.
  unfold rekeyFrom. simpl. rewrite Nat.add_0_r. f_equal.
  apply imap_ext. intros i x _. simpl. by rewrite Nat.add_succ_r.
Qed.

Lemma rekeyFrom_values j values : (rekeyFrom j values).*2 = values.
Proof.
  revert j. induction values as [|v values IH]; intros j; [done|].
  rewrite rekeyFrom_cons. simpl. by rewrite IH.
Qed.

Lemma rekeyFrom_key j values k v :
  (k, v) ∈ rekeyFrom j values -> exists i, (j <= i)%nat /\ k = keyOf i (prop v "name") /\ v ∈ values.
Proof.
  revert j. induction values as [|x values IH]; intros j Hin.
  - by apply elem_of_nil in Hin.
  - rewrite rekeyFrom_cons in Hin. apply elem_of_cons in Hin as [[= -> ->]|Hin].
    + exists j. split_and!; [lia|done|]. apply elem_of_cons. by left.
    + apply IH in Hin as (i & Hi & -> & Hv). exists i. split_and!; [lia|done|].
      apply elem_of_cons. by right.
Qed.

Lemma rekeyFrom_get j m n :
  keyed m -> Map_get (rekeyFrom j (Map_values m)) (KStr n) = Map_get m (KStr n).
Proof.
  unfold Map_values. revert j. induction m as [|[k v] m IH]; intros j Hk; [done|].
  change (((k, v) :: m).*2) with (v :: m.*2). rewrite rekeyFrom_cons. cbn [Map_get].
  assert (Hiff : k = KStr n <-> keyOf j (prop v "name") = KStr n).
  { rewrite keyOf_KStr. eapply keyed_name; [exact Hk|]. apply elem_of_cons. by left. }
  pose proof (keyed_cons_inv _ _ _ Hk) as Hk'.
  destruct (decide (k = KStr n)) as [Heq|Hne];
    destruct (decide (keyOf j (prop v "name") = KStr n)) as [Heq'|Hne']; try tauto.
  by apply IH.
Qed.

Lemma rekeyFrom_NoDup j m :
  keyed m -> NoDup m.*1 -> NoDup (rekeyFrom j (Map_values m)).*1.
Proof.
  unfold Map_values. revert j. induction m as [|[k v] m IH]; intros j Hk Hnd.
  - apply NoDup_nil_2.
  - change (((k, v) :: m).*2) with (v :: m.*2). rewrite rekeyFrom_cons.
    change (((k, v) :: m).*1) with (k :: m.*1) in Hnd.
    rewrite fmap_cons. cbn [fst].
    apply NoDup_cons in Hnd as [Hnotin Hnd].
    pose proof (keyed_cons_inv _ _ _ Hk) as Hk'.
    apply NoDup_cons. split; [|by apply IH].
    intros Hin. apply list_elem_of_fmap in Hin as [[k' v'] [Hkey Hin]]. simpl in Hkey.
    apply rekeyFrom_key in Hin as (i & Hi & -> & Hv').
    apply list_elem_of_fmap in Hv' as [[k0 v0] [-> Hin0]]. simpl in *.
    destruct (Hk k v ltac:(apply elem_of_cons; by left)) as [_ [a Ha]].
    destruct (Hk' k0 v0 Hin0) as [_ [b Hb]].
    destruct (isRef (prop v "name")) eqn:Hr.
    + rewrite (keyOf_ref j) in Hkey by done.
      destruct (isRef (prop v0 "name")) eqn:Hr0.
      * rewrite (keyOf_ref i) in Hkey by done. injection Hkey as ->. lia.
      * symmetry in Hkey. by apply keyOf_not_ref in Hkey.
    + destruct (isRef (prop v0 "name")) eqn:Hr0.
      * rewrite (keyOf_ref i) in Hkey by done. by apply keyOf_not_ref in Hkey.
      * apply Hnotin. apply list_elem_of_fmap. exists (k0, v0). split; [|done].
        simpl. rewrite Ha, Hb.
        rewrite (keyOf_value a j) by done. rewrite (keyOf_value b i) by done. done.
Qed.

Lemma keyed_values m : keyed m -> Forall (fun cfg => isNull cfg = false) (Map_values m).
Proof.
  intros Hk. apply Forall_forall. intros v Hv.
  apply list_elem_of_fmap in Hv as [[k v'] [-> Hin]]. by destruct (Hk _ _ Hin).
Qed.

(** No two values of a map have the same plain name. *)
Lemma plain_names_NoDup m : keyed m -> NoDup m.*1 -> NoDup (omap plainName (Map_values m)).
Proof.
  unfold Map_values. induction m as [|[k v] m IH]; intros Hk Hnd.
  - apply NoDup_nil_2.
  - change (((k, v) :: m).*2) with (v :: m.*2).
    change (((k, v) :: m).*1) with (k :: m.*1) in Hnd.
    apply NoDup_cons in Hnd as [Hnotin Hnd].
    pose proof (keyed_cons_inv _ _ _ Hk) as Hk'.
    simpl. unfold plainName at 1.
    destruct (isRef (prop v "name")) eqn:Hr; [by apply IH|].
    apply NoDup_cons. split; [|by apply IH].
    intros Hin. apply list_elem_of_omap in Hin as [v' [Hv' Hp]].
    apply list_elem_of_fmap in Hv' as [[k' v''] [-> Hin]]. simpl in Hp.
    unfold plainName in Hp. destruct (isRef (prop v'' "name")) eqn:Hr'; [done|].
    injection Hp as Hp.
    destruct (Hk k v ltac:(apply elem_of_cons; by left)) as [_ [a ->]].
    destruct (Hk' k' v'' Hin) as [_ [b Hb]].
    apply Hnotin. apply list_elem_of_fmap. exists (k', v''). split; [|done].
    simpl. rewrite Hb, Hp. by apply keyOf_value.
Qed.

Lemma filter_none {A} (P : A -> Prop) `{forall x, Decision (P x)} (l : list A) :
  (forall x, x ∈ l -> ¬ P x) -> filter P l = [].
Proof.
  induction l as [|x l IH]; intros Hl; [done|].
  rewrite filter_cons. destruct (decide (P x)) as [Hp|_].
  - exfalso. apply (Hl x); [apply elem_of_cons; by left|done].
  - apply IH. intros y Hy. apply Hl. apply elem_of_cons. by right.
Qed.

Section Rerun.
Context (w : world) (items : list json) (scripts : list (string * json)).
Hypothesis Hitems : Forall (fun cfg => isNull cfg = false) items.
Hypothesis Hscripts : NoDup (keys scripts).

(** A second run over the entries the first one wrote, with every
    overwrite confirmed, arrives at the same entries. *)
Lemma rerun_values :
  let cfgs := Map_values (finalMap (buildConfigs w (existingMap items) scripts) true) in
  Map_values (finalMap (buildConfigs w (existingMap cfgs) scripts) true) = cfgs.
Proof.
  intros cfgs.
  set (m1 := finalMap (buildConfigs w (existingMap items) scripts) true) in *.
  assert (Hk1 : keyed m1) by (by apply final_keyed).
  assert (Hn1 : NoDup m1.*1) by (by apply final_NoDup).
  assert (Hex : existingMap cfgs = rekeyFrom 0 cfgs).
  { unfold existingMap. apply (Map_new_id (rekeyFrom 0 cfgs)).
    by apply rekeyFrom_NoDup. }
  assert (Hget : forall s, s ∈ keys scripts ->
            Map_get (rekeyFrom 0 cfgs) (KStr (configName w s)) = Some (makeConfig w s)).
  { intros s Hs. unfold cfgs. rewrite rekeyFrom_get by done. by apply final_script. }
  unfold finalMap at 1. rewrite buildConfigs_closed by done. simpl. rewrite Hex.
  assert (Hadded : added w (rekeyFrom 0 cfgs) (keys scripts) = []).
  { unfold added. rewrite filter_none; [done|].
    intros s Hs Hf. apply Hf.
    apply Map_get_is_Some. rewrite Hget by done. by eexists. }
  rewrite Hadded, app_nil_r. rewrite overwriteAll_same.
  - apply rekeyFrom_values.
  - intros n c Hin. apply conflicts_elem in Hin as (s & -> & -> & Hs & _). by apply Hget.
Qed.

End Rerun.

(** ** Running again, and running into failures *)

Section Forward.
Context `{JSON}.

(** Two invocations with the same arguments in the same directory agree on
    everything but the clock, the answer and the failures. *)
Lemma same_invocation w1 w2 :
  argv w2 = argv w1 -> cwd w2 = cwd w1 ->
  packageJsonPath w2 = packageJsonPath w1
  /\ vscodeDir w2 = vscodeDir w1
  /\ launchJsonPath w2 = launchJsonPath w1
  /\ autoYes w2 = autoYes w1
  /\ selectScripts w2 = selectScripts w1
  /\ buildConfigs w2 = buildConfigs w1.
Proof. destruct w1, w2. simpl. intros -> ->. done. Qed.

(** A run without failures over a manifest with scripts and a target file
    that parses hands the gate the merge of the two. *)
Lemma prepare_forward w st text pkg target doc items :
  (forall site, io_fails w site = false) ->
  files st !! packageJsonPath w = Some text ->
  JSON_parse (utf8_decode text) = Some pkg ->
  isNull pkg = false ->
  keys (selectScripts w (prop pkg "scripts")) <> [] ->
  files st !! launchJsonPath w = Some target ->
  JSON_parse (utf8_decode target) = Some doc ->
  isNull doc = false ->
  orElse (prop doc "configurations") (JArr []) = JArr items ->
  Forall (fun cfg => isNull cfg = false) items ->
  exists st',
    prepare w st
    = (Done (buildConfigs w (existingMap items) (selectScripts w (prop pkg "scripts"))), st')
    /\ files st' = <[getTimestampedBackupPath w := utf8_encode (utf8_decode target)]>
                     (files st).
Proof.
  intros Hio Hm Hpkg Hnull Hkeys Ht Hdoc Hdnull Hcfg Hall.
  unfold prepare, mbind, M_bind.
  stage; simpl in *;
    try (match goal with Hn : ¬ found _ _ |- _ =>
           exfalso; apply Hn; left; by eexists end);
    try (match goal with Hn : _ \/ _ |- _ => destruct Hn; congruence end);
    try congruence.
  simplify_eq.
  stage; simpl in *; [| |by rewrite Hio in *].
  all: stage; simpl in *;
    try (match goal with Hn : ¬ found _ _ |- _ =>
           exfalso; apply Hn; left; simpl; by eexists end);
    try (match goal with Hn : _ \/ _ |- _ => destruct Hn; congruence end);
    try congruence.
  all: simplify_eq.
  all: rewrite (loadConfigMap_items doc _ items) by done.
  all: eexists; split; reflexivity.
Qed.

Lemma save_forward w g st :
  autoYes w = true ->
  io_fails w WriteLaunch = false ->
  exists st',
    confirmAndSave w g st = (Done tt, st')
    /\ files st' = <[launchJsonPath w :=
                      utf8_encode (JSON_stringify (mergedLaunchJson (Map_values (finalMap g true))))]>
                     (files st).
Proof.
  intros Hauto Hio. stage; try congruence.
  match goal with Hd : decision _ _ _ _ |- _ => destruct Hd as [Ha|Ha Hn|a Ha Hn Hs] end;
    try congruence.
  eexists. split; reflexivity.
Qed.

(** A failure to create [.vscode] ends the run. *)
Lemma mkdir_failure_propagates w fs ds scripts st1 :
  loadScripts w (Process fs ds []) = (Done scripts, st1) ->
  ¬ found (vscodeDir w) (Process fs ds []) ->
  io_fails w MkdirVscode = true ->
  run w fs ds = (Uncaught (IOError MkdirVscode), Process fs ds []).
Proof.
  intros Hls Hnf Hio.
  assert (Hst : st1 = Process fs ds []) by (revert Hls; stage; congruence).
  subst. unfold run, main, prepare, mbind, M_bind. rewrite Hls.
  stage; simpl in *; congruence.
Qed.

(** A failure to write the target file ends the run. *)
Lemma target_write_failure_propagates w fs ds g st1 :
  prepare w (Process fs ds []) = (Done g, st1) ->
  io_fails w WriteLaunch = true ->
  (run w fs ds).1 = Uncaught (IOError WriteLaunch) \/ (run w fs ds).1 = Pending.
Proof.
  intros Hp Hio. unfold run, main, mbind, M_bind. rewrite Hp.
  stage; simpl; auto. congruence.
Qed.

(** A failure to read the target file or to write its backup never ends
    the run: the [catch] meant for the parse takes it. *)
Lemma backup_failure_is_caught w fs ds :
  (run w fs ds).1 <> Uncaught (IOError WriteBackup)
  /\ (run w fs ds).1 <> Uncaught (IOError ReadLaunch).
Proof.
  unfold run, main, mbind, M_bind.
  destruct (prepare w (Process fs ds [])) as [r st1] eqn:Hp.
  assert (Hr : r <> Uncaught (IOError WriteBackup) /\ r <> Uncaught (IOError ReadLaunch)).
  { revert Hp. unfold prepare, mbind, M_bind.
    stage; try (intros [= <- <-]; done).
    stage; try (intros [= <- <-]; done).
    all: stage; try stage; intros [= <- <-]; done. }
  destruct r as [g|c|e|]; simpl; try done.
  - stage; done.
  - destruct Hr as [Hr1 Hr2]. split; intros [= Heq]; [apply Hr1|apply Hr2]; by rewrite Heq.
Qed.

End Forward.

(** * The properties of the specification *)



(** C2. When a run with [--yes] has written the target file, a second run
    with the same arguments over the files the first one left, the manifest
    untouched, writes the same entries again; and these entries never share
    an identifying name. The text the first run wrote is taken to parse back
    to the document it was serialized from, and the second run to meet no
    I/O failure. *)
Theorem second_run_changes_nothing `{JSON} (w1 w2 : world) (fs : gmap string string)
    (ds : gset string) (st1 : process) :
  argv w2 = argv w1 ->
  cwd w2 = cwd w1 ->
  autoYes w1 = true ->
  (forall site, io_fails w2 site = false) ->
  run w1 fs ds = (Done tt, st1) ->
  (forall g st,
     prepare w1 (Process fs ds []) = (Done g, st) ->
     JSON_parse
       (utf8_decode
          (utf8_encode (JSON_stringify (mergedLaunchJson (Map_values (finalMap g true))))))
     = Some (mergedLaunchJson (Map_values (finalMap g true)))) ->
  exists configurations st2,
    files st1 !! launchJsonPath w1
    = Some (utf8_encode (JSON_stringify (mergedLaunchJson configurations)))
    /\ files st1 !! packageJsonPath w1 = fs !! packageJsonPath w1
    /\ run w2 (files st1) (dirs st1) = (Done tt, st2)
    /\ files st2 !! launchJsonPath w2
       = Some (utf8_encode (JSON_stringify (mergedLaunchJson configurations)))
    /\ NoDup (omap stringName configurations).
Proof.
  intros Hargv Hcwd Hyes Hio2 Hrun Hround.
  destruct (same_invocation w1 w2 Hargv Hcwd) as (Hpkg & Hdir & Hlaunch & Hauto & Hsel & Hbuild).
  apply run_Done in Hrun as (g & st0 & yes & asked & Hp & Hdec & Hio & Hfiles & Hdirs & _).
  assert (yes = true) as ->.
  { destruct Hdec as [Ha|Ha Hn|a Ha Hn Hs]; congruence. }
  specialize (Hround g st0 Hp).
  destruct (prepare_frame w1 _ _ _ Hp) as (_ & Hframe & _).
  apply prepare_Done in Hp
    as (text & pkg & items & Hm & _ & Hparse & Hnull & Hkeys & Hitems & -> & _).
  pose proof (selectScripts_NoDup w1 (prop pkg "scripts")) as Hnd.
  set (scripts := selectScripts w1 (prop pkg "scripts")) in *.
  set (cfgs := Map_values (finalMap (buildConfigs w1 (existingMap items) scripts) true)) in *.
  assert (Hmanifest : files st1 !! packageJsonPath w1 = fs !! packageJsonPath w1).
  { rewrite Hfiles, lookup_insert_ne by (by apply launch_not_manifest).
    apply Hframe. apply not_eq_sym. by apply backup_not_manifest. }
  assert (Hcfgs : Forall (fun cfg => isNull cfg = false) cfgs).
  { apply keyed_values. by apply final_keyed. }
  destruct (prepare_forward w2 (Process (files st1) (dirs st1) []) text pkg
              (utf8_encode (JSON_stringify (mergedLaunchJson cfgs)))
              (mergedLaunchJson cfgs) cfgs)
    as (st2a & Hp2 & Hf2); try done.
  { simpl. by rewrite Hpkg, Hmanifest. }
  { by rewrite Hsel. }
  { simpl. rewrite Hlaunch, Hfiles. apply lookup_insert_eq. }
  destruct (save_forward w2
              (buildConfigs w2 (existingMap cfgs) (selectScripts w2 (prop pkg "scripts"))) st2a)
    as (st2 & Hs2 & Hw2); [congruence|done|].
  exists cfgs, st2. split_and!.
  - rewrite Hfiles. apply lookup_insert_eq.
  - done.
  - unfold run, main, mbind, M_bind. by rewrite Hp2.
  - rewrite Hw2, lookup_insert_eq. rewrite Hsel, Hbuild. fold scripts.
    unfold cfgs. by rewrite rerun_values.
  - apply names_NoDup; [by apply final_keyed|by apply final_NoDup].
Qed.

Lemma second_run_changes_nothing_witness :
  let J := Scenario.codec
             [Scenario.manifest; Scenario.launch;
              Scenario.doc [Scenario.attach; Scenario.npmDev; Scenario.npmBuild]] in
  let w1 := Scenario.invoke ["--yes"] None Scenario.noFaults in
  let w2 := World ["--yes"] "/proj" "2025-07-25T14:33:41.500Z" None Scenario.noFaults
              (fun _ => None) in
  let st1 := (@run J w1 Scenario.project Scenario.vscode).2 in
  exists configurations st2,
    files st1 !! launchJsonPath w1
    = Some (@utf8_encode J (@JSON_stringify J (mergedLaunchJson configurations)))
    /\ files st1 !! packageJsonPath w1 = Scenario.project !! packageJsonPath w1
    /\ @run J w2 (files st1) (dirs st1) = (Done tt, st2)
    /\ files st2 !! launchJsonPath w2
       = Some (@utf8_encode J (@JSON_stringify J (mergedLaunchJson configurations)))
    /\ NoDup (omap stringName configurations).
Proof.
  intros J w1 w2 st1.
  apply (@second_run_changes_nothing J w1 w2 Scenario.project Scenario.vscode st1).
  - reflexivity.
  - reflexivity.
  - reflexivity.
  - intros site. reflexivity.
  - vm_compute. reflexivity.
  - intros g st Hp. vm_compute in Hp. injection Hp as <- _. vm_compute. reflexivity.
Defined.

(** C3, as amended. Once a run is past the script extractor and the
    [.vscode] directory is there or can be made, a target file that is read
    and a backup that is written without failure leave, at the timestamped
    backup path, the encoding of the text the target file was read into,
    whatever happens afterwards: when the target file was utf-8, that is
    byte for byte what it held before the run. The backup precedes the
    parse: when the text does not parse, the run goes on from an empty list
    of entries with the backup already in place. *)
Theorem backup_precedes_parse `{JSON} (w : world) (fs : gmap string string) (ds : gset string)
    (scripts : list (string * json)) (st1 : process) (target : bytes) :
  loadScripts w (Process fs ds []) = (Done scripts, st1) ->
  found (vscodeDir w) (Process fs ds []) \/ io_fails w MkdirVscode = false ->
  fs !! launchJsonPath w = Some target ->
  io_fails w ReadLaunch = false ->
  io_fails w WriteBackup = false ->
  files (run w fs ds).2 !! getTimestampedBackupPath w
  = Some (utf8_encode (utf8_decode target))
  /\ (validUtf8 target ->
      files (run w fs ds).2 !! getTimestampedBackupPath w = Some target)
  /\ ConsoleLog (BackupCreated (getTimestampedBackupPath w)) ∈ console (run w fs ds).2
  /\ (JSON_parse (utf8_decode target) = None ->
      exists st2,
        prepare w (Process fs ds []) = (Done (buildConfigs w [] scripts), st2)
        /\ files st2 !! getTimestampedBackupPath w
           = Some (utf8_encode (utf8_decode target))
        /\ ConsoleWarn CouldNotParse ∈ console st2).
Proof.
  intros Hls Hdir Hfs Hread Hwrite.
  assert (Hne : getTimestampedBackupPath w <> launchJsonPath w)
    by (by apply backup_not_launch).
  assert (Hst : st1 = Process fs ds []).
  { revert Hls. stage; congruence. }
  subst st1.
  assert (Hprep : exists r st2,
    prepare w (Process fs ds []) = (r, st2)
    /\ files st2 !! getTimestampedBackupPath w = Some (utf8_encode (utf8_decode target))
    /\ ConsoleLog (BackupCreated (getTimestampedBackupPath w)) ∈ console st2
    /\ (JSON_parse (utf8_decode target) = None ->
        r = Done (buildConfigs w [] scripts) /\ ConsoleWarn CouldNotParse ∈ console st2)).
  { unfold prepare, mbind, M_bind. rewrite Hls.
    stage; [| |destruct Hdir; [done|congruence]].
    all: stage; simpl in *;
      try (match goal with Hn : ¬ found _ _ |- _ =>
             exfalso; apply Hn; left; simpl; by eexists end);
      try (match goal with Hn : _ \/ _ |- _ => destruct Hn; congruence end);
      try congruence.
    all: simplify_eq.
    all: try stage.
    all: eexists _, _; split; [reflexivity|]; simpl.
    all: split; [by rewrite lookup_insert_eq|].
    all: split; [set_solver|].
    all: try (intros Hnone; congruence).
    all: intros _; split; [done|set_solver]. }
  destruct Hprep as (r & st2 & Hp & Hfile & Hlog & Hfresh).
  assert (Hkept : files (run w fs ds).2 !! getTimestampedBackupPath w
                  = Some (utf8_encode (utf8_decode target))).
  { unfold run, main, mbind, M_bind. rewrite Hp.
    destruct r; simpl; try done. stage; try done.
    - unfold failedWrite. destruct (io_wrote w WriteLaunch); simpl; [|done].
      by rewrite lookup_insert_ne.
    - by rewrite lookup_insert_ne. }
  split_and!.
  - exact Hkept.
  - intros Hvalid. rewrite Hkept. by rewrite Hvalid.
  - unfold run, main, mbind, M_bind. rewrite Hp.
    destruct r; simpl; try done.
    stage; unfold failedWrite; try destruct (io_wrote w WriteLaunch); simpl; set_solver.
  - intros Hnone. destruct (Hfresh Hnone) as [-> Hwarn]. by exists st2.
Qed.

Lemma backup_precedes_parse_witness :
  let J := Scenario.codec [Scenario.manifest] in
  let w := Scenario.invoke [] None Scenario.noFaults in
  let fs : gmap string string :=
    {[ Scenario.packageJson := Scenario.render Scenario.manifest;
       Scenario.launchJson := "// not JSON" ]} in
  files (@run J w fs Scenario.vscode).2 !! getTimestampedBackupPath w = Some "// not JSON"
  /\ ConsoleLog (BackupCreated (getTimestampedBackupPath w))
       ∈ console (@run J w fs Scenario.vscode).2
  /\ exists st2,
       @prepare J w (Process fs Scenario.vscode [])
       = (Done (buildConfigs w [] [("dev", JStr "vite"); ("build", JStr "vite build")]), st2)
       /\ files st2 !! getTimestampedBackupPath w = Some "// not JSON"
       /\ ConsoleWarn CouldNotParse ∈ console st2.
Proof.
  intros J w fs.
  destruct (@backup_precedes_parse J w fs Scenario.vscode
              [("dev", JStr "vite"); ("build", JStr "vite build")]
              (Process fs Scenario.vscode []) "// not JSON")
    as (_ & Hvalid & Hlog & Hparse).
  - vm_compute. reflexivity.
  - left. right. vm_compute. set_solver.
  - reflexivity.
  - reflexivity.
  - reflexivity.
  - split; [apply Hvalid; reflexivity|]. split; [exact Hlog|].
    apply Hparse. reflexivity.
Defined.

(** C3, as stated, fails in more than one way. With a target file in
    place and no manifest the run ends at the manifest check, before any
    backup is written. A target file that is not utf-8 (here it starts with
    the byte 255) is read into a text with U+FFFD in place of what could not
    be decoded, so the backup, which is that text written out, starts with
    the three bytes of U+FFFD instead. And when the backup cannot be
    written, the run completes without one. *)
Lemma backup_missing_or_different :
  let J := Scenario.codec [Scenario.launch; Scenario.manifest] in
  let w := Scenario.invoke [] None Scenario.noFaults in
  let fs : gmap string string :=
    {[ Scenario.launchJson := Scenario.render Scenario.launch ]} in
  let target : bytes := String "255" "// not JSON" in
  let fs' : gmap string string :=
    {[ Scenario.packageJson := Scenario.render Scenario.manifest;
       Scenario.launchJson := target ]} in
  let w' := Scenario.invoke ["--yes"] None (Scenario.failing WriteBackup) in
  (fs !! launchJsonPath w = Some (Scenario.render Scenario.launch)
   /\ @run J w fs Scenario.vscode
      = (Exited 1, Process fs Scenario.vscode [ConsoleError NoPackageJson])
   /\ files (@run J w fs Scenario.vscode).2 !! getTimestampedBackupPath w = None)
  /\ (fs' !! launchJsonPath w = Some target
      /\ (@run J w fs' Scenario.vscode).1 = Done tt
      /\ files (@run J w fs' Scenario.vscode).2 !! getTimestampedBackupPath w
         = Some (String "239" (String "191" (String "189" "// not JSON")))
      /\ files (@run J w fs' Scenario.vscode).2 !! getTimestampedBackupPath w
         <> Some target)
  /\ (Scenario.project !! launchJsonPath w' = Some (Scenario.render Scenario.launch)
      /\ (@run J w' Scenario.project Scenario.vscode).1 = Done tt
      /\ files (@run J w' Scenario.project Scenario.vscode).2
           !! getTimestampedBackupPath w' = None).
Proof.
  intros J w fs target fs' w'. split_and!; try (vm_compute; reflexivity).
  vm_compute. discriminate.
Qed.

(** C4. The file a run writes never holds two entries with the same
    identifying name: the string names of its entries are pairwise
    different, and so are the names that are numbers, booleans, [null] or
    missing. And the working map built from the existing entries binds a
    name that occurs more than once to its last occurrence. *)
Theorem unique_names `{JSON} (w : world) (fs : gmap string string) (ds : gset string)
    (st' : process) :
  run w fs ds = (Done tt, st') ->
  (exists configurations,
     files st' !! launchJsonPath w
     = Some (utf8_encode (JSON_stringify (mergedLaunchJson configurations)))
     /\ NoDup (omap stringName configurations)
     /\ NoDup (omap plainName configurations))
  /\ (forall doc st items n,
        isNull doc = false ->
        orElse (prop doc "configurations") (JArr []) = JArr items ->
        Forall (fun cfg => isNull cfg = false) items ->
        exists m,
          loadConfigMap doc st = (Done m, st)
          /\ Map_get m (KStr n) = last (filter (fun v => stringName v = Some n) items)).
Proof.
  intros Hrun. split.
  - apply run_Done in Hrun as (g & st1 & yes & asked & Hp & _ & _ & Hfiles & _).
    exists (Map_values (finalMap g yes)). split.
    { rewrite Hfiles. apply lookup_insert_eq. }
    apply prepare_Done in Hp as (text & pkg & items & _ & _ & _ & _ & _ & Hitems & -> & _).
    pose proof (selectScripts_NoDup w (prop pkg "scripts")) as Hnd.
    split.
    + apply names_NoDup; [by apply final_keyed|by apply final_NoDup].
    + apply plain_names_NoDup; [by apply final_keyed|by apply final_NoDup].
  - intros doc st items n Hn Ho Hall. exists (existingMap items). split.
    + by apply loadConfigMap_items.
    + apply existing_last.
Qed.

Lemma unique_names_witness :
  let J := Scenario.codec [Scenario.manifest; Scenario.launch] in
  let w := Scenario.invoke ["--yes"] None Scenario.noFaults in
  let st' := (@run J w Scenario.project Scenario.vscode).2 in
  exists configurations,
    files st' !! launchJsonPath w
    = Some (@utf8_encode J (@JSON_stringify J (mergedLaunchJson configurations)))
    /\ NoDup (omap stringName configurations)
    /\ NoDup (omap plainName configurations).
Proof.
  intros J w st'.
  apply (@unique_names J w Scenario.project Scenario.vscode st').
  vm_compute. reflexivity.
Defined.

(** C5, as amended. A script whose name contains [generate-launch] is never
    kept by the extractor, whatever the filter, so the run derives no entry
    from it; an entry of that identifying name is in the written file only
    when the target file held it before the run. *)
Theorem self_exclusion `{JSON} (w : world) (fs : gmap string string) (ds : gset string)
    (st' : process) (name : string) :
  includes name "generate-launch" = true ->
  run w fs ds = (Done tt, st') ->
  (forall pkgScripts, name ∉ keys (selectScripts w pkgScripts))
  /\ exists configurations,
       files st' !! launchJsonPath w
       = Some (utf8_encode (JSON_stringify (mergedLaunchJson configurations)))
       /\ forall v, v ∈ configurations ->
            stringName v = Some (configName w name) ->
            v ∈ preRunEntries (fs !! launchJsonPath w).
Proof.
  intros Hincl Hrun.
  assert (Hout : forall pkgScripts, name ∉ keys (selectScripts w pkgScripts)).
  { intros ps Hin. apply selectScripts_in in Hin as (_ & Hno & _). congruence. }
  split; [done|].
  apply run_Done in Hrun as (g & st1 & yes & asked & Hp & _ & _ & Hfiles & _).
  exists (Map_values (finalMap g yes)). split.
  { rewrite Hfiles. apply lookup_insert_eq. }
  apply prepare_Done in Hp as (text & pkg & items & _ & _ & _ & _ & _ & Hitems & -> & Hsrc).
  pose proof (selectScripts_NoDup w (prop pkg "scripts")) as Hnd.
  intros v Hv Hname.
  apply list_elem_of_fmap in Hv as [[k v'] [-> Hv]]. simpl in *.
  pose proof (final_keyed w items _ Hitems Hnd yes) as Hk.
  pose proof (final_NoDup w items _ Hnd yes) as Hn.
  assert (k = KStr (configName w name)) as -> by (by eapply keyed_name).
  apply Map_get_elem in Hv; [|done].
  rewrite final_untouched in Hv; [|done|].
  2:{ intros s Hs Heq. apply configName_inj in Heq as <-. by apply (Hout (prop pkg "scripts")). }
  unfold existingMap in Hv. rewrite existing_last in Hv.
  assert (Hin : v' ∈ items).
  { apply last_Some in Hv as [l Hl].
    assert (v' ∈ filter (fun v => stringName v = Some (configName w name)) items)
      by (rewrite Hl; apply elem_of_app; right; by apply list_elem_of_singleton).
    by apply list_elem_of_filter in H0 as [_ ?]. }
  destruct Hsrc as [-> | (target & Ht & _ & _ & -> & _)].
  - by apply elem_of_nil in Hin.
  - simpl in Ht. by rewrite Ht.
Qed.

Lemma self_exclusion_witness :
  let J := Scenario.codec [Scenario.manifest; Scenario.launch] in
  let w := Scenario.invoke [] (Some "n") Scenario.noFaults in
  let st' := (@run J w Scenario.project Scenario.vscode).2 in
  (forall pkgScripts, "generate-launch:dev" ∉ keys (selectScripts w pkgScripts))
  /\ exists configurations,
       files st' !! launchJsonPath w
       = Some (@utf8_encode J (@JSON_stringify J (mergedLaunchJson configurations)))
       /\ forall v, v ∈ configurations ->
            stringName v = Some (configName w "generate-launch:dev") ->
            v ∈ @preRunEntries J (Scenario.project !! launchJsonPath w).
Proof.
  intros J w st'.
  apply (@self_exclusion J w Scenario.project Scenario.vscode st' "generate-launch:dev").
  - reflexivity.
  - vm_compute. reflexivity.
Defined.

(** C5, as stated, fails: the target file of this run names an entry
    [npm: generate-launch], the manifest has a script [generate-launch], and
    the entry is in the file the run writes. *)
Lemma self_named_entry_survives :
  let kept := JObj [("type", JStr "node"); ("request", JStr "launch");
                    ("name", JStr "npm: generate-launch")] in
  let J := Scenario.codec [Scenario.manifest; Scenario.doc [kept]] in
  let w := Scenario.invoke ["--yes"] None Scenario.noFaults in
  let fs : gmap string string :=
    {[ Scenario.packageJson := Scenario.render Scenario.manifest;
       Scenario.launchJson := Scenario.render (Scenario.doc [kept]) ]} in
  includes "generate-launch" "generate-launch" = true
  /\ "generate-launch" ∈ keys (entries (orElse (prop Scenario.manifest "scripts") (JObj [])))
  /\ (@run J w fs Scenario.vscode).1 = Done tt
  /\ files (@run J w fs Scenario.vscode).2 !! Scenario.launchJson
     = Some (@utf8_encode J
               (@JSON_stringify J
                  (mergedLaunchJson [kept; Scenario.npmDev; Scenario.npmBuild])))
  /\ stringName kept = Some (configName w "generate-launch").
Proof.
  intros kept J w fs. split_and!.
  - reflexivity.
  - vm_compute. set_solver.
  - vm_compute. reflexivity.
  - vm_compute. reflexivity.
  - reflexivity.
Qed.

(** C6. With a non-empty [--filter] prefix, every script kept by the
    extractor has a name that starts with the prefix, every entry the run
    synthesizes (added or queued to overwrite) comes from such a script, and
    a script whose name does not start with the prefix yields no entry. *)
Theorem filter_prefix `{JSON} (w : world) (st : process) (g : merge) (st' : process) :
  nonEmpty (filterPrefix w) = true ->
  prepare w st = (Done g, st') ->
  (forall pkgScripts s,
     s ∈ keys (selectScripts w pkgScripts) -> exists r, s = (filterPrefix w +:+ r))
  /\ (forall n,
        n ∈ newConfigs g \/ n ∈ (configsToOverwrite g).*1 ->
        exists s, n = configName w s /\ startsWith s (filterPrefix w) = true)
  /\ (forall s,
        startsWith s (filterPrefix w) = false ->
        (configName w s ∉ newConfigs g) /\ (configName w s ∉ (configsToOverwrite g).*1)).
Proof.
  intros Hf Hp.
  apply prepare_Done in Hp as (text & pkg & items & _ & _ & _ & _ & _ & Hitems & -> & _).
  pose proof (selectScripts_NoDup w (prop pkg "scripts")) as Hnd.
  assert (Hsynth : forall n,
    n ∈ newConfigs (buildConfigs w (existingMap items) (selectScripts w (prop pkg "scripts")))
    \/ n ∈ (configsToOverwrite
              (buildConfigs w (existingMap items) (selectScripts w (prop pkg "scripts")))).*1 ->
    exists s, n = configName w s /\ startsWith s (filterPrefix w) = true).
  { intros n Hn. apply built_synthesized in Hn as (s & Hs & ->); [|done].
    exists s. split; [done|]. apply selectScripts_in in Hs as (_ & _ & Hs). auto. }
  split_and!.
  - intros ps s Hs. apply selectScripts_in in Hs as (_ & _ & Hs).
    apply startsWith_inv. auto.
  - done.
  - intros s Hs. split; intros Hin.
    + destruct (Hsynth (configName w s)) as (s' & Heq & Hs'); [by left|].
      apply configName_inj in Heq as <-. congruence.
    + destruct (Hsynth (configName w s)) as (s' & Heq & Hs'); [by right|].
      apply configName_inj in Heq as <-. congruence.
Qed.

Lemma filter_prefix_witness :
  let J := Scenario.codec [Scenario.manifest; Scenario.launch] in
  let w := Scenario.invoke ["--filter"; "dev"] (Some "y") Scenario.noFaults in
  let g := Scenario.plan (@prepare J w (Process Scenario.project Scenario.vscode [])) in
  newConfigs g = []
  /\ (configsToOverwrite g).*1 = ["npm: dev"]
  /\ (forall n,
        n ∈ newConfigs g \/ n ∈ (configsToOverwrite g).*1 ->
        exists s, n = configName w s /\ startsWith s "dev" = true).
Proof.
  intros J w g. split; [reflexivity|]. split; [reflexivity|].
  apply (@filter_prefix J w (Process Scenario.project Scenario.vscode []) g
           (@prepare J w (Process Scenario.project Scenario.vscode [])).2).
  - reflexivity.
  - vm_compute. reflexivity.
Defined.

(** C7. When the manifest has no [scripts] mapping, an empty one, or one
    that the self-exclusion and the prefix filter empty out, the tool
    prints the warning, exits with status 0 and leaves the file system as
    it found it: no target file is written. *)
Theorem nothing_to_do `{JSON} w fs ds text pkg :
  fs !! packageJsonPath w = Some text ->
  io_fails w ReadManifest = false ->
  JSON_parse (utf8_decode text) = Some pkg ->
  isNull pkg = false ->
  prop pkg "scripts" = None
  \/ prop pkg "scripts" = Some (JObj [])
  \/ keys (selectScripts w (prop pkg "scripts")) = [] ->
  run w fs ds
  = (Exited 0, Process fs ds [ConsoleWarn (NoScriptsMatched (filterPrefix w))])
  /\ exitStatus (run w fs ds).1 = 0%Z
  /\ files (run w fs ds).2 = fs.
Proof.
  intros Hfs Hio Hparse Hnull Hscripts.
  assert (Hnone : keys (selectScripts w (prop pkg "scripts")) = []).
  { destruct Hscripts as [-> | [-> | ?]]; [|  |done].
    - by rewrite selectScripts_none.
    - by rewrite selectScripts_empty. }
  assert (Hrun : run w fs ds
    = (Exited 0, Process fs ds [ConsoleWarn (NoScriptsMatched (filterPrefix w))])).
  { unfold run, main, prepare, mbind, M_bind. stage; simpl in *.
    - exfalso. apply H0. left. by eexists.
    - destruct H1; congruence.
    - congruence.
    - assert (pkg = JNull) by congruence. by subst.
    - done.
    - assert (pkg0 = pkg) by congruence. by subst. }
  by rewrite Hrun.
Qed.

Lemma nothing_to_do_witness :
  let J := Scenario.codec [Scenario.bare] in
  let w := Scenario.invoke [] None Scenario.noFaults in
  let fs : gmap string string :=
    {[ Scenario.packageJson := Scenario.render Scenario.bare ]} in
  @run J w fs ∅ = (Exited 0, Process fs ∅ [ConsoleWarn (NoScriptsMatched "")])
  /\ exitStatus (@run J w fs ∅).1 = 0%Z
  /\ files (@run J w fs ∅).2 = fs.
Proof.
  intros J w fs.
  apply (@nothing_to_do J w fs ∅ (Scenario.render Scenario.bare) Scenario.bare).
  - reflexivity.
  - reflexivity.
  - reflexivity.
  - reflexivity.
  - left. reflexivity.
Defined.

(** C8, as amended. The tool prints the diagnostic and calls
    [process.exit(1)] exactly when no manifest is found; a status of 1
    is also what the shell sees when an exception is not caught. *)
Theorem exit_one `{JSON} w fs ds :
  let r := run w fs ds in
  let missing := ¬ found (packageJsonPath w) (Process fs ds []) in
  (r.1 = Exited 1 <-> missing)
  /\ (missing -> r = (Exited 1, Process fs ds [ConsoleError NoPackageJson]))
  /\ (exitStatus r.1 = 1%Z <-> missing \/ exists e, r.1 = Uncaught e).
Proof.
  intros r missing.
  assert (Hmiss : missing -> r = (Exited 1, Process fs ds [ConsoleError NoPackageJson])).
  { intros Hm. unfold r, run. exec. by rewrite bool_decide_eq_false_2. }
  assert (Hexit : forall c, r.1 = Exited c -> (c = 1%Z /\ missing) \/ (c = 0%Z /\ ¬ missing)).
  { unfold r, run, main, mbind, M_bind. intros c.
    destruct (prepare w (Process fs ds [])) as [[g|c'|e|] st1] eqn:Hp; simpl.
    - stage; done.
    - intros [= ->]. destruct (prepare_frame w _ _ _ Hp) as (_ & _ & Hc & _).
      destruct (Hc c eq_refl) as [(-> & Hm & _)|(-> & Hf & _)]; [by left|].
      right. split; [done|]. by intros Hm.
    - done.
    - done. }
  split_and!.
  - split; [|intros Hm; by rewrite (Hmiss Hm)].
    intros Hr. destruct (Hexit _ Hr) as [[_ ?]|[? _]]; done.
  - done.
  - split.
    + destruct r.1 as [[]|c|e|] eqn:Hr; simpl; try done.
      * intros ->. left. destruct (Hexit _ eq_refl) as [[_ ?]|[? _]]; done.
      * intros _. right. by exists e.
    + intros [Hm|[e He]]; [by rewrite (Hmiss Hm)|by rewrite He].
Qed.

(** C8, as stated, fails: with the manifest in place, a [.vscode]
    directory that is missing and cannot be created ends the process with
    status 1 as well ([fs.mkdirSync] throws and nothing catches it). *)
Lemma failed_mkdir_status_one :
  let J := Scenario.codec [Scenario.manifest] in
  let w := Scenario.invoke [] None (Scenario.failing MkdirVscode) in
  let fs : gmap string string :=
    {[ Scenario.packageJson := Scenario.render Scenario.manifest ]} in
  fs !! packageJsonPath w = Some (Scenario.render Scenario.manifest)
  /\ @run J w fs ∅ = (Uncaught (IOError MkdirVscode), Process fs ∅ [])
  /\ exitStatus (@run J w fs ∅).1 = 1%Z.
Proof. intros J w fs. split_and!; vm_compute; reflexivity. Qed.

(** C9 at the failing input. The target file holds the user's [Attach]
    entry, and the backup cannot be written. The run does not stop: it
    reports a parse failure, starts from an empty list and overwrites the
    target file, so the entry is gone and no backup holds it. *)
Theorem backup_failure_is_swallowed :
  let J := Scenario.codec [Scenario.manifest; Scenario.launch] in
  let w := Scenario.invoke [] None (Scenario.failing WriteBackup) in
  @run J w Scenario.project Scenario.vscode
  = (Done tt,
     Process
       (<[Scenario.launchJson :=
            Scenario.render (Scenario.doc [Scenario.npmDev; Scenario.npmBuild])]>
          Scenario.project)
       Scenario.vscode
       [ConsoleWarn CouldNotParse; ConsoleLog (Skipped 0); ConsoleLog (Updated 2)]).
Proof. vm_compute. reflexivity. Qed.

(** C10. At the prompt the overwrite is confirmed exactly when the answer,
    trimmed and lowercased, is the one character [y], that is when it is a
    [y] or a [Y] with nothing but white space around it; [yes] and the empty
    line are refusals. A refusal writes the map as it stood before the
    question, so every conflicting name keeps the entry it had before the
    run; a confirmation writes the map with all overwrites applied. *)
Theorem only_y_confirms `{JSON} (w : world) (fs : gmap string string) (ds : gset string)
    (g : merge) (st1 : process) (answer : string) :
  prepare w (Process fs ds []) = (Done g, st1) ->
  autoYes w = false ->
  configsToOverwrite g <> [] ->
  stdin w = Some answer ->
  io_fails w WriteLaunch = false ->
  (saysYes answer = true <-> toLowerCase (trim answer) = "y")
  /\ (saysYes answer = true <->
      exists l c r, answer = l +:+ String c r
        /\ blank l = true /\ blank r = true /\ (c = "y"%char \/ c = "Y"%char))
  /\ saysYes "yes" = false
  /\ saysYes "" = false
  /\ exists st',
       run w fs ds = (Done tt, st')
       /\ Question (OverwriteAll (length (configsToOverwrite g))) ∈ console st'
       /\ files st' !! launchJsonPath w
          = Some (utf8_encode (JSON_stringify (mergedLaunchJson (Map_values
               (if saysYes answer
                then overwriteAll (configMap g) (configsToOverwrite g)
                else configMap g)))))
       /\ (saysYes answer = false ->
           forall n c,
             (n, c) ∈ configsToOverwrite g ->
             exists old,
               last (filter (fun v => stringName v = Some n)
                       (preRunEntries (fs !! launchJsonPath w))) = Some old
               /\ filter (fun v => stringName v = Some n) (Map_values (configMap g))
                  = [old]).
Proof.
  intros Hp Hauto Hne Hin Hio. split_and!.
  - unfold saysYes. apply bool_decide_eq_true.
  - apply saysYes_iff.
  - reflexivity.
  - reflexivity.
  - pose proof (gate_outcome w fs ds g st1 answer Hp Hauto Hin Hio) as Hrun.
    simpl in Hrun. destruct (decide (configsToOverwrite g = [])) as [|_]; [done|].
    eexists. split; [exact Hrun|]. simpl. split_and!.
    + apply elem_of_app. right. apply elem_of_cons. by left.
    + by rewrite lookup_insert_eq.
    + intros Hno n c Hnc.
      destruct (conflict_bindings w fs ds g st1 false n c Hp Hnc)
        as (s & old & _ & _ & Hold & Hkeep).
      by exists old.
Qed.

Lemma only_y_confirms_witness :
  let J := Scenario.codec [Scenario.manifest; Scenario.launch] in
  let w := Scenario.invoke [] (Some "yes") Scenario.noFaults in
  let g := Scenario.plan (@prepare J w (Process Scenario.project Scenario.vscode [])) in
  saysYes "yes" = false
  /\ exists st',
       @run J w Scenario.project Scenario.vscode = (Done tt, st')
       /\ files st' !! launchJsonPath w
          = Some (@utf8_encode J (@JSON_stringify J (mergedLaunchJson
                    [Scenario.attach; Scenario.staleDev; Scenario.npmBuild]))).
Proof.
  intros J w g.
  destruct (@only_y_confirms J w Scenario.project Scenario.vscode g
              (@prepare J w (Process Scenario.project Scenario.vscode [])).2 "yes")
    as (_ & _ & Hyes & _ & st' & Hrun & _ & Hfile & _).
  - vm_compute. reflexivity.
  - reflexivity.
  - discriminate.
  - reflexivity.
  - reflexivity.
  - split; [exact Hyes|]. exists st'. split; [exact Hrun|]. exact Hfile.
Defined.

(** * Groundwork for further properties *)

(** ** Reading the command line *)

Lemma indexOf_None args flag : indexOf args flag = None <-> flag ∉ args.
Proof.
  induction args as [|a args IH]; simpl.
  - split; [intros _; apply not_elem_of_nil|done].
  - destruct (String.eqb a flag) eqn:E.
    + apply String.eqb_eq in E as ->. split; [done|]. intros Hn. destruct Hn. by left.
    + apply String.eqb_neq in E. rewrite not_elem_of_cons.
      destruct (indexOf args flag); simpl; split; try done.
      * intros [_ Hn]. by apply IH in Hn.
      * intros _. split; [done|]. by apply IH.
Qed.

Lemma indexOf_first pre flag rest :
  flag ∉ pre -> indexOf (pre ++ flag :: rest) flag = Some (length pre).
Proof.
  induction pre as [|a pre IH]; simpl; intros Hn.
  - by rewrite String.eqb_refl.
  - apply not_elem_of_cons in Hn as [Hne Hn].
    destruct (String.eqb a flag) eqn:E; [apply String.eqb_eq in E; congruence|].
    by rewrite IH.
Qed.

(** ** Frames *)

Section Frames.
Context `{JSON} (w : world).

Lemma prepare_dirs st r st' :
  prepare w st = (r, st') ->
  dirs st' = dirs st \/ dirs st' = {[vscodeDir w]} ∪ dirs st.
Proof.
  unfold prepare, mbind, M_bind.
  stage; try (intros [= <- <-]; by left).
  stage; try (intros [= <- <-]; by left).
  all: stage; try stage; intros [= <- <-]; leftover; by (left + right).
Qed.

Lemma confirmAndSave_frame g st r st' :
  confirmAndSave w g st = (r, st') ->
  dirs st' = dirs st
  /\ (forall p, p <> launchJsonPath w -> files st' !! p = files st !! p)
  /\ (forall p, is_Some (files st !! p) -> is_Some (files st' !! p))
  /\ (r <> Done tt -> r <> Uncaught (IOError WriteLaunch) -> files st' = files st)
  /\ (r = Uncaught (IOError WriteLaunch) ->
      io_fails w WriteLaunch = true
      /\ ((io_wrote w WriteLaunch = None /\ files st' = files st)
          \/ exists n cfgs,
               io_wrote w WriteLaunch = Some n
               /\ files st'
                  = <[launchJsonPath w :=
                       firstBytes n (utf8_encode (JSON_stringify (mergedLaunchJson cfgs)))]>
                      (files st))).
Proof.
  stage; intros [= <- <-]; leftover; split_and!; try done.
  all: try (intros p Hp; by rewrite lookup_insert_ne).
  all: try (intros p Hp; apply lookup_insert_is_Some;
            destruct (decide (launchJsonPath w = p)); auto).
  all: intros _; split; [done|].
  - right. by eexists _, _.
  - by left.
Qed.

Lemma run_split fs ds :
  exists r1 st1,
    prepare w (Process fs ds []) = (r1, st1)
    /\ ((exists g, r1 = Done g /\ run w fs ds = confirmAndSave w g st1)
        \/ ((forall g, r1 <> Done g) /\ (run w fs ds).2 = st1
            /\ (run w fs ds).1 <> Done tt /\ (run w fs ds).1 <> Pending)).
Proof.
  unfold run, main, mbind, M_bind.
  destruct (prepare w (Process fs ds [])) as [r1 st1] eqn:Hp.
  exists r1, st1. split; [done|].
  destruct (prepare_frame w _ _ _ Hp) as (_ & _ & _ & Hnp).
  destruct r1 as [g|c|e|]; [left; by exists g|right..]; simpl; split_and!; done.
Qed.

(** The merge handed to the gate is a function of the two files. *)
Lemma prepare_merge st g st' :
  prepare w st = (Done g, st') ->
  keys (manifestScripts w (files st)) <> []
  /\ Forall (fun cfg => isNull cfg = false) (startingEntries w (files st))
  /\ g = buildConfigs w (existingMap (startingEntries w (files st)))
           (manifestScripts w (files st)).
Proof.
  unfold prepare, mbind, M_bind, manifestScripts, startingEntries, preRunEntries.
  stage; try done.
  stage; try done.
  all: stage.
  all: try stage; try done.
  all: intros [= <- <-]; simpl in *.
  all: rewrite ?H0, ?H2; simpl.
  all: split; [done|].
  all: destruct (io_fails w ReadLaunch) eqn:Hr, (io_fails w WriteBackup) eqn:Hb;
    simpl; try done; try congruence.
  all: try (match goal with Hor : _ \/ _ |- _ => destruct Hor; [congruence|] end).
  all: try (match goal with
            | Hn : ¬ found (launchJsonPath w) ?p |- _ =>
                destruct (files p !! launchJsonPath w) eqn:Hl;
                [exfalso; apply Hn; left; by eexists|]
            end).
  all: simpl in *.
  all: repeat match goal with
       | Hf : files _ !! launchJsonPath w = _ |- _ => rewrite Hf
       | Hp : JSON_parse _ = _ |- _ => rewrite Hp
       end; simpl.
  all: try (match goal with Ho : orElse _ _ = _ |- _ => rewrite Ho end).
  all: try done.
Qed.

End Frames.

(** ** Backup names *)

Lemma inClass_same k a b :
  inClass k a = true -> inClass k b = true ->
  (if isSeparator a then "-"%char else a) = (if isSeparator b then "-"%char else b) ->
  a = b.
Proof.
  destruct k as [|d]; simpl.
  - intros Ha Hb.
    assert (Hsa : isSeparator a = false).
    { unfold isSeparator. apply orb_false_iff. split; apply Ascii.eqb_neq; intros ->;
        vm_compute in Ha; discriminate. }
    assert (Hsb : isSeparator b = false).
    { unfold isSeparator. apply orb_false_iff. split; apply Ascii.eqb_neq; intros ->;
        vm_compute in Hb; discriminate. }
    by rewrite Hsa, Hsb.
  - intros Ha Hb _. apply Ascii.eqb_eq in Ha, Hb. congruence.
Qed.

Lemma shaped_stamp pat a b :
  shaped pat a = true -> shaped pat b = true ->
  replaceColonDot a = replaceColonDot b -> a = b.
Proof.
  revert a b. induction pat as [|k pat IH]; intros [|x a] [|y b]; simpl; try done.
  intros Ha Hb [= Hxy Hab].
  apply andb_true_iff in Ha as [Hx Ha]. apply andb_true_iff in Hb as [Hy Hb].
  f_equal; [by apply (inClass_same k)|by apply IH].
Qed.

Lemma replaceColonDot_length s : String.length (replaceColonDot s) = String.length s.
Proof. induction s as [|c s IH]; simpl; congruence. Qed.

Lemma replaceColonDot_chars s c :
  c ∈ chars (replaceColonDot s) -> isSeparator c = false.
Proof.
  induction s as [|x s IH]; simpl; intros Hin; [by apply elem_of_nil in Hin|].
  apply elem_of_cons in Hin as [->|Hin]; [|by apply IH].
  fold (isSeparator x). by destruct (isSeparator x) eqn:E.
Qed.

Lemma string_app_inj_r (p a b : string) : p +:+ a = p +:+ b -> a = b.
Proof.
  induction p as [|c p IH]; [done|].
  change (String c (p +:+ a) = String c (p +:+ b) -> a = b). intros [= Heq]. by apply IH.
Qed.

Lemma string_app_inj_l (a b s : string) :
  String.length a = String.length b -> a +:+ s = b +:+ s -> a = b.
Proof.
  revert b. induction a as [|x a IH]; intros [|y b]; simpl; try done.
  intros [= Hl]. change (String x (a +:+ s) = String y (b +:+ s) -> String x a = String y b).
  intros [= -> Heq]. f_equal. by apply IH.
Qed.

(** ** What cannot be read *)

Lemma holds_null items :
  forallb (fun cfg => negb (isNull cfg)) items = false <-> JNull ∈ items.
Proof.
  induction items as [|x items IH]; simpl.
  - split; [done|]. intros Hin. by apply elem_of_nil in Hin.
  - rewrite elem_of_cons, andb_false_iff, IH. split.
    + intros [Hx|Hin]; [left; by destruct x|by right].
    + intros [<-|Hin]; [by left|by right].
Qed.

Lemma namePairs_None doc :
  isNull doc = true \/ namePairs (orElse (prop doc "configurations") (JArr [])) = None
  <-> fatalTarget doc.
Proof.
  unfold fatalTarget. split.
  - intros [Hn|Hp]; [left; by destruct doc|].
    right. destruct (prop doc "configurations") as [c|] eqn:Hc; [|done].
    unfold orElse in Hp. destruct (truthy (Some c)) eqn:Ht; [|done].
    destruct c as [|b|q|s|l|o]; try (left; eexists; split_and!; done).
    right. exists l. split; [done|]. simpl in Hp.
    destruct (forallb _ l) eqn:Hall; [done|]. by apply holds_null.
  - intros [->|[(c & Hc & Ht & Hna)|(items & Hc & Hin)]]; [by left|right..].
    + rewrite Hc. unfold orElse. rewrite Ht. destruct c; try done. by destruct (Hna items).
    + rewrite Hc. simpl. apply holds_null in Hin. by rewrite Hin.
Qed.

Lemma namePairs_Some doc items :
  isNull doc = false ->
  orElse (prop doc "configurations") (JArr []) = JArr items ->
  Forall (fun cfg => isNull cfg = false) items ->
  ¬ (isNull doc = true
     \/ namePairs (orElse (prop doc "configurations") (JArr [])) = None).
Proof.
  intros Hn Ho Hall [Hd|Hp]; [congruence|]. rewrite Ho in Hp. simpl in Hp.
  destruct (forallb _ items) eqn:Hb; [done|]. apply holds_null in Hb.
  rewrite Forall_forall in Hall. by specialize (Hall _ Hb).
Qed.

Section Unreadable.
Context `{JSON} (w : world).

(** The files [prepare] leaves: those it found, with at most a copy of
    the target file added. *)
Lemma prepare_files st r st' :
  prepare w st = (r, st') ->
  files st' = files st
  \/ exists target,
       files st !! launchJsonPath w = Some target
       /\ ((io_fails w WriteBackup = false
            /\ files st' = <[getTimestampedBackupPath w := utf8_encode (utf8_decode target)]>
                             (files st))
           \/ (io_fails w WriteBackup = true
               /\ exists n,
                    io_wrote w WriteBackup = Some n
                    /\ files st'
                       = <[getTimestampedBackupPath w :=
                            firstBytes n (utf8_encode (utf8_decode target))]> (files st))).
Proof.
  unfold prepare, mbind, M_bind.
  stage; try (intros [= <- <-]; by left).
  stage; try (intros [= <- <-]; by left).
  all: stage; try stage; intros [= <- <-]; leftover; simpl in *;
    try (by left); right; eexists; (split; [eassumption|]).
  all: try (left; by split).
  all: right; split; [done|]; by eexists.
Qed.

(** [prepare] removes no file. *)
Lemma prepare_kept st r st' :
  prepare w st = (r, st') ->
  forall p, is_Some (files st !! p) -> is_Some (files st' !! p).
Proof.
  intros Hp p Hsome.
  destruct (prepare_files _ _ _ Hp)
    as [->|(target & _ & [[_ ->]|(_ & n & _ & ->)])]; [done|..].
  all: apply lookup_insert_is_Some;
    destruct (decide (getTimestampedBackupPath w = p)); auto.
Qed.

End Unreadable.

(** ** The layout of the written list *)

Lemma Map_ext (m1 m2 : Map) :
  m1.*1 = m2.*1 -> NoDup m1.*1 ->
  (forall k, k ∈ m1.*1 -> Map_get m1 k = Map_get m2 k) ->
  m1 = m2.
Proof.
  revert m2. induction m1 as [|[k v] m1 IH]; intros [|[k' v'] m2]; simpl; try done.
  intros [= <- Hk] Hnd Hget. apply NoDup_cons in Hnd as [Hn Hnd].
  pose proof (Hget k ltac:(left)) as Hv. destruct (decide (k = k)); [|done].
  injection Hv as <-. f_equal. apply IH; [done|done|].
  intros k0 Hin. specialize (Hget k0 ltac:(by right)).
  destruct (decide (k = k0)) as [->|]; [done|exact Hget].
Qed.

Lemma overwriteAll_keys m ov :
  (forall n, n ∈ ov.*1 -> KStr n ∈ m.*1) -> (overwriteAll m ov).*1 = m.*1.
Proof.
  induction ov as [|[n c] ov IH] using rev_ind; intros Hin; [done|].
  rewrite overwriteAll_snoc. rewrite fmap_app in Hin.
  rewrite Map_set_keys; rewrite IH; try done.
  - intros n' Hn'. apply Hin. apply elem_of_app. by left.
  - apply Hin. apply elem_of_app. right. simpl. by left.
  - intros n' Hn'. apply Hin. apply elem_of_app. by left.
Qed.

Lemma Map_get_fmap (f : json -> json) (m : Map) k :
  Map_get ((fun kv => (kv.1, f kv.2)) <$> m) k = f <$> Map_get m k.
Proof.
  induction m as [|[k' v] m IH]; [done|].
  rewrite fmap_cons. simpl. by destruct (decide (k' = k)).
Qed.

Lemma keys_fmap_values (f : json -> json) (m : Map) :
  ((fun kv => (kv.1, f kv.2)) <$> m).*1 = m.*1.
Proof. rewrite <- list_fmap_compose. by apply list_fmap_ext. Qed.

Lemma values_fmap_values (f : json -> json) (m : Map) :
  Map_values ((fun kv => (kv.1, f kv.2)) <$> m) = f <$> Map_values m.
Proof. unfold Map_values. by rewrite <- !list_fmap_compose. Qed.

Lemma filter_all {A} (P : A -> Prop) `{forall x, Decision (P x)} (l : list A) :
  (forall x, x ∈ l -> P x) -> filter P l = l.
Proof.
  induction l as [|x l IH]; intros Hall; [done|].
  rewrite filter_cons_True by (apply Hall; by left).
  f_equal. apply IH. intros y Hy. apply Hall. by right.
Qed.

Section Layout.
Context `{JSON} (w : world).

Lemma added_values m names :
  Map_values (added w m names) = makeConfig w <$> filter (fresh w m) names.
Proof. unfold Map_values, added. by rewrite <- list_fmap_compose. Qed.

Lemma conflicts_intro m names s :
  s ∈ names -> KStr (configName w s) ∈ m.*1 ->
  (configName w s, makeConfig w s) ∈ conflicts w m names.
Proof.
  intros Hs Hin. unfold conflicts. apply list_elem_of_fmap. exists s. split; [done|].
  apply list_elem_of_filter. split; [|done]. unfold fresh. by intros Hf.
Qed.

Lemma regenerated_script names v s :
  stringName v = Some (configName w s) -> s ∈ names ->
  regenerated w names v = makeConfig w s.
Proof.
  intros Hv Hs. unfold regenerated. rewrite Hv.
  destruct (find _ names) as [s'|] eqn:Hf.
  - apply find_some in Hf as [_ Hf]. apply bool_decide_eq_true in Hf.
    apply configName_inj in Hf. by subst.
  - apply list_elem_of_In in Hs. apply (find_none _ _ Hf) in Hs.
    by apply bool_decide_eq_false in Hs.
Qed.

Lemma regenerated_other names v :
  (forall s, s ∈ names -> stringName v <> Some (configName w s)) ->
  regenerated w names v = v.
Proof.
  intros Hv. unfold regenerated. destruct (stringName v) as [n|] eqn:Hn; [|done].
  destruct (find _ names) as [s|] eqn:Hf; [|done].
  apply find_some in Hf as [Hs Hf]. apply bool_decide_eq_true in Hf.
  apply list_elem_of_In in Hs. destruct (Hv s Hs). by rewrite Hf.
Qed.

(** Applying the overwrites replaces, in place, exactly the entries that
    carry the name of a script. *)
Lemma overwrite_layout m names :
  keyed m -> NoDup m.*1 -> NoDup names ->
  overwriteAll (m ++ added w m names) (conflicts w m names)
  = ((fun kv => (kv.1, regenerated w names kv.2)) <$> m) ++ added w m names.
Proof.
  intros Hk Hm Hn.
  assert (Hkeys : (overwriteAll (m ++ added w m names) (conflicts w m names)).*1
                  = (m ++ added w m names).*1).
  { apply overwriteAll_keys. intros n Hin.
    apply list_elem_of_fmap in Hin as [[n' c] [-> Hin]].
    apply conflicts_elem in Hin as (s & -> & _ & _ & Hin).
    rewrite fmap_app. apply elem_of_app. by left. }
  apply Map_ext.
  - rewrite Hkeys, !fmap_app. by rewrite keys_fmap_values.
  - apply overwriteAll_NoDup. by apply merged_NoDup.
  - intros k Hin. rewrite Hkeys, fmap_app in Hin.
    destruct (decide (k ∈ m.*1)) as [Hkm|Hkm].
    + rewrite (Map_get_app_l _ (added w m names)) by (by rewrite keys_fmap_values).
      rewrite Map_get_fmap.
      pose proof (proj2 (Map_get_is_Some m k) Hkm) as [v Hv]. rewrite Hv. simpl.
      pose proof (Map_get_Some_elem _ _ _ Hv) as Hel.
      assert (Hdec : (exists s, s ∈ names /\ k = KStr (configName w s))
                     \/ ¬ (exists s, s ∈ names /\ k = KStr (configName w s))).
      { destruct (decide (k ∈ (fun s => KStr (configName w s)) <$> names)) as [Hd|Hd].
        - left. apply list_elem_of_fmap in Hd as [s [-> Hs]]. by exists s.
        - right. intros (s & Hs & ->). apply Hd. apply list_elem_of_fmap. by exists s. }
      destruct Hdec as [(s & Hs & ->)|Hno].
      * rewrite (regenerated_script names v s);
          [|by apply (keyed_name m (KStr (configName w s)) v (configName w s))|done].
        apply overwriteAll_bound; [by apply conflicts_names_NoDup|].
        by apply conflicts_intro.
      * rewrite overwriteAll_other.
        -- rewrite Map_get_app_l by done. rewrite Hv. f_equal. symmetry.
           apply regenerated_other. intros s Hs Hname.
           apply Hno. exists s. split; [done|]. by apply (keyed_name m k v).
        -- intros n -> Hn'. apply list_elem_of_fmap in Hn' as [[n' c] [Heq Hc]].
           simpl in Heq. subst n'.
           apply conflicts_elem in Hc as (s & -> & _ & Hs & _). apply Hno. by exists s.
    + rewrite Map_get_app_r by (by rewrite keys_fmap_values).
      rewrite overwriteAll_other; [by rewrite Map_get_app_r|].
      intros n -> Hn'. apply list_elem_of_fmap in Hn' as [[n' c] [Heq Hc]].
      simpl in Heq. subst n'.
      by apply conflicts_elem in Hc as (s & -> & _ & _ & Hc).
Qed.

(** Where nothing conflicts, there is nothing to replace. *)
Lemma regenerated_idle m names :
  keyed m -> conflicts w m names = [] ->
  regenerated w names <$> Map_values m = Map_values m.
Proof.
  intros Hk Hnone.
  assert (Hfresh : forall s, s ∈ names -> fresh w m s).
  { intros s Hs. destruct (decide (fresh w m s)) as [|Hn]; [done|].
    apply fmap_nil_inv in Hnone.
    by destruct (filter_nil_not_elem_of _ _ s Hnone Hn). }
  unfold Map_values. rewrite <- list_fmap_compose.
  apply list_fmap_ext. intros i [k v] Hi. simpl.
  apply regenerated_other. intros s Hs Hname.
  apply list_elem_of_lookup_2 in Hi.
  apply (Hfresh s Hs). apply list_elem_of_fmap. exists (k, v). split; [|done].
  simpl. symmetry. by apply (keyed_name m k v).
Qed.

(** The written list, in closed form. *)
Lemma final_layout items scripts yes :
  Forall (fun cfg => isNull cfg = false) items ->
  NoDup (keys scripts) ->
  Map_values (finalMap (buildConfigs w (existingMap items) scripts) yes)
  = (if yes then regenerated w (keys scripts) <$> Map_values (existingMap items)
     else Map_values (existingMap items))
    ++ (makeConfig w <$> filter (fresh w (existingMap items)) (keys scripts)).
Proof.
  intros Hitems Hnd. rewrite buildConfigs_closed by done. unfold finalMap. simpl.
  destruct yes.
  - rewrite overwrite_layout;
      [|by apply existing_keyed|apply existingMap_NoDup|done].
    unfold Map_values at 1. rewrite fmap_app.
    fold (Map_values ((fun kv => (kv.1, regenerated w (keys scripts) kv.2))
                        <$> existingMap items)).
    fold (Map_values (added w (existingMap items) (keys scripts))).
    by rewrite values_fmap_values, added_values.
  - unfold Map_values at 1. rewrite fmap_app.
    fold (Map_values (existingMap items)).
    fold (Map_values (added w (existingMap items) (keys scripts))).
    by rewrite added_values.
Qed.

Lemma existingMap_distinct items :
  NoDup (nameKeys items) -> Map_values (existingMap items) = items.
Proof.
  intros Hnd. unfold existingMap.
  change (imap (fun i cfg => (keyOf i (prop cfg "name"), cfg)) items)
    with (rekeyFrom 0 items).
  rewrite Map_new_id.
  - apply rekeyFrom_values.
  - unfold rekeyFrom. replace ((imap _ items).*1) with (nameKeys items); [done|].
    unfold nameKeys. rewrite fmap_imap. done.
Qed.

Lemma manifestScripts_NoDup fs : NoDup (keys (manifestScripts w fs)).
Proof.
  unfold manifestScripts. destruct (fs !! packageJsonPath w) as [text|]; [|apply NoDup_nil_2].
  destruct (JSON_parse (utf8_decode text)); [apply selectScripts_NoDup|apply NoDup_nil_2].
Qed.

(** Every kept script is either new or queued for an overwrite. *)
Lemma split_count m names :
  (length (filter (fresh w m) names) + length (conflicts w m names))%nat = length names.
Proof.
  unfold conflicts. rewrite length_fmap, <- length_app.
  apply Permutation_length, filter_app_complement.
Qed.

(** What a run that completes leaves behind. *)
Lemma run_completed fs ds :
  (run w fs ds).1 = Done tt ->
  let g := buildConfigs w (existingMap (startingEntries w fs)) (manifestScripts w fs) in
  Forall (fun cfg => isNull cfg = false) (startingEntries w fs)
  /\ keys (manifestScripts w fs) <> []
  /\ exists yes asked st1,
       decision w g yes asked
       /\ questions (console st1) = 0%nat
       /\ (run w fs ds).2
          = Process
              (<[launchJsonPath w :=
                   utf8_encode (JSON_stringify (mergedLaunchJson (Map_values (finalMap g yes))))]>
                 (files st1))
              (dirs st1)
              (console st1 ++ asked ++
                 [verdict g yes;
                  ConsoleLog (Updated (length (newConfigs g)
                    + (if yes then length (configsToOverwrite g) else 0)))]).
Proof.
  intros Hdone g.
  destruct (run_split w fs ds) as (r1 & st1 & Hp & [(g' & -> & Hrun)|(_ & _ & Hnd & _)]);
    [|done].
  destruct (prepare_frame w _ _ _ Hp) as (Hq & _).
  apply prepare_merge in Hp as (Hkeys & Hitems & ->). simpl in *.
  split; [done|]. split; [done|].
  rewrite Hrun in *. revert Hdone. fold g. stage; try done.
  intros _. by exists yes, asked, st1.
Qed.

End Layout.

(** ** The selection in closed form *)

Lemma setField_fresh k v o : k ∉ keys o -> setField k v o = o ++ [(k, v)].
Proof.
  unfold keys. induction o as [|[k' v'] o IH]; simpl; intros Hk; [done|].
  apply not_elem_of_cons in Hk as [Hne Hk].
  destruct (String.eqb k' k) eqn:E; [apply String.eqb_eq in E; congruence|].
  by rewrite IH.
Qed.

Lemma fromEntries_id l : NoDup (keys l) -> fromEntries l = l.
Proof.
  unfold fromEntries.
  assert (Hgen : forall o, NoDup (keys (o ++ l)) ->
            fold_left (fun o kv => setField kv.1 kv.2 o) l o = o ++ l).
  { induction l as [|[k v] l IH]; intros o Hnd; simpl; [by rewrite app_nil_r|].
    unfold keys in Hnd. rewrite fmap_app in Hnd. simpl in Hnd.
    apply NoDup_app in Hnd as (Ho & Hdis & Hl).
    rewrite setField_fresh.
    - rewrite IH; [by rewrite <- app_assoc|].
      unfold keys. rewrite !fmap_app. simpl. rewrite <- app_assoc. simpl.
      apply NoDup_app. by split_and!.
    - intros Hin. apply (Hdis k Hin). by left. }
  intros Hnd. by apply (Hgen []).
Qed.

Lemma keys_filter_NoDup (P : string * json -> Prop) `{forall x, Decision (P x)} l :
  NoDup (keys l) -> NoDup (keys (filter P l)).
Proof.
  intros Hnd. apply (sublist_NoDup _ (keys l)); [done|].
  unfold keys. apply fmap_sublist, sublist_filter.
Qed.

Section Directory.
Context `{JSON} (w : world).

(** [prepare] touches no file before [.vscode] is there. *)
Lemma prepare_vscode st r st' :
  prepare w st = (r, st') ->
  (files st' = files st /\ forall g, r <> Done g) \/ found (vscodeDir w) st'.
Proof.
  unfold prepare, mbind, M_bind.
  stage; try (intros [= <- <-]; by left).
  stage; try (intros [= <- <-]; by left).
  all: stage; try stage; intros [= <- <-]; right; leftover; unfold found in *;
    simpl in *.
  all: try (right; set_solver).
  all: try done.
  all: match goal with
       | Hf : is_Some _ \/ _ |- _ => destruct Hf as [Hf|Hf]; [left|by right]
       end.
  all: try done.
  all: apply lookup_insert_is_Some;
    destruct (decide (getTimestampedBackupPath w = vscodeDir w)); auto.
Qed.

End Directory.

(** * Further properties of the script *)

(** X1. [getArg] returns the token that follows the first occurrence of
    the flag, whatever that token looks like; when the flag is absent, is
    the last token, or is followed by the empty string, the fallback. *)
Theorem getArg_first_occurrence (w : world) (flag fallback : string) :
  (flag ∉ argv w -> getArg w flag fallback = fallback)
  /\ (forall pre, flag ∉ pre -> argv w = pre ++ [flag] ->
        getArg w flag fallback = fallback)
  /\ (forall pre v rest, flag ∉ pre -> argv w = pre ++ flag :: v :: rest ->
        getArg w flag fallback = if nonEmpty v then v else fallback).
Proof.
  unfold getArg. split_and!.
  - intros Hn. apply indexOf_None in Hn. by rewrite Hn.
  - intros pre Hn ->. rewrite indexOf_first by done.
    rewrite lookup_app_r by lia. by replace (length pre + 1 - length pre)%nat with 1%nat by lia.
  - intros pre v rest Hn ->. rewrite indexOf_first by done.
    rewrite lookup_app_r by lia. by replace (length pre + 1 - length pre)%nat with 1%nat by lia.
Qed.

(** X2. For a manifest whose script names are pairwise different, the
    scripts kept are those whose name does not contain [generate-launch]
    and, when a prefix is given, starts with it: with their commands, and
    in manifest order. *)
Theorem kept_scripts_in_manifest_order (w : world) (fields : list (string * json)) :
  NoDup (keys fields) ->
  selectScripts w (Some (JObj fields)) = filter (fun e => kept w e.1) fields.
Proof.
  intros Hnd. unfold selectScripts, kept. simpl.
  rewrite (fromEntries_id (filter _ fields)) by (by apply keys_filter_NoDup).
  destruct (nonEmpty (filterPrefix w)).
  - rewrite fromEntries_id by (by do 2 apply keys_filter_NoDup).
    rewrite list_filter_filter. apply list_filter_iff. intros [k v]. simpl.
    rewrite andb_True. tauto.
  - apply list_filter_iff. intros [k v]. simpl. by rewrite andb_true_r.
Qed.

Lemma kept_scripts_in_manifest_order_witness :
  let w := Scenario.invoke ["--filter"; "b"] None Scenario.noFaults in
  selectScripts w
    (Some (JObj [("dev", JStr "vite"); ("build", JStr "vite build");
                 ("generate-launch", JStr "node scripts/generate-launch-config.js")]))
  = [("build", JStr "vite build")].
Proof.
  intros w. rewrite (kept_scripts_in_manifest_order w).
  - reflexivity.
  - vm_compute. repeat constructor; set_solver.
Defined.

(** X3. The stamp in a backup name has the length of the instant and holds
    no colon and no dot; backups taken in one directory at two different
    instants have different names, and none of them is the name of the
    target file or of the manifest. *)
Theorem backup_names_differ (w1 w2 : world) :
  cwd w1 = cwd w2 ->
  isoInstant (clock w1) = true ->
  isoInstant (clock w2) = true ->
  (String.length (replaceColonDot (clock w1)) = String.length (clock w1)
   /\ forall c, c ∈ chars (replaceColonDot (clock w1)) -> c <> ":"%char /\ c <> "."%char)
  /\ (getTimestampedBackupPath w1 = getTimestampedBackupPath w2 -> clock w1 = clock w2)
  /\ getTimestampedBackupPath w1 <> launchJsonPath w2
  /\ getTimestampedBackupPath w1 <> packageJsonPath w2.
Proof.
  intros Hc H1 H2. split_and!.
  - apply replaceColonDot_length.
  - intros c Hin. apply replaceColonDot_chars in Hin.
    split; intros ->; vm_compute in Hin; discriminate.
  - unfold getTimestampedBackupPath, vscodeDir, path_join. rewrite Hc.
    rewrite !string_app_assoc. intros Heq.
    apply (shaped_stamp isoPattern); [done|done|].
    assert (Hlen : String.length (clock w1) = String.length (clock w2)).
    { clear Heq Hc. unfold isoInstant in *. revert H1 H2.
      generalize (clock w1) (clock w2) isoPattern. intros a b pat. revert a b.
      induction pat as [|k pat IH]; intros [|x a] [|y b]; simpl; try done.
      intros Ha Hb. apply andb_true_iff in Ha as [_ Ha]. apply andb_true_iff in Hb as [_ Hb].
      f_equal. by apply IH. }
    do 5 apply string_app_inj_r in Heq.
    apply string_app_inj_l in Heq; [done|].
    by rewrite !replaceColonDot_length.
  - by apply backup_not_launch.
  - by apply backup_not_manifest.
Qed.

Lemma backup_names_differ_witness :
  let w1 := Scenario.invoke [] None Scenario.noFaults in
  let w2 := World [] "/proj" "2025-07-25T14:33:40.124Z" None Scenario.noFaults
              (fun _ => None) in
  getTimestampedBackupPath w1 = "/proj/.vscode/launch.backup.2025-07-25T14-33-40-123Z.json"
  /\ getTimestampedBackupPath w2 = "/proj/.vscode/launch.backup.2025-07-25T14-33-40-124Z.json"
  /\ getTimestampedBackupPath w1 <> launchJsonPath w2.
Proof.
  intros w1 w2. split_and!; [reflexivity|reflexivity|].
  apply (backup_names_differ w1 w2); reflexivity.
Defined.

(** X4. A run leaves every file alone except [launch.json] and the backup
    file of this run: [package.json] in particular is never written. It
    removes no file, and the only directory it may add is [.vscode]. *)
Theorem run_touches_two_files `{JSON} (w : world) (fs : gmap string string) (ds : gset string) :
  (forall p,
     p <> launchJsonPath w -> p <> getTimestampedBackupPath w ->
     files (run w fs ds).2 !! p = fs !! p)
  /\ files (run w fs ds).2 !! packageJsonPath w = fs !! packageJsonPath w
  /\ (forall p, is_Some (fs !! p) -> is_Some (files (run w fs ds).2 !! p))
  /\ (dirs (run w fs ds).2 = ds \/ dirs (run w fs ds).2 = {[vscodeDir w]} ∪ ds).
Proof.
  destruct (run_split w fs ds) as (r1 & st1 & Hp & Hrun).
  destruct (prepare_frame w _ _ _ Hp) as (_ & Hfiles & _).
  pose proof (prepare_dirs w _ _ _ Hp) as Hdirs.
  pose proof (prepare_kept w _ _ _ Hp) as Hkept. simpl in *.
  assert (Hall : (forall p,
     p <> launchJsonPath w -> p <> getTimestampedBackupPath w ->
     files (run w fs ds).2 !! p = fs !! p)
    /\ (forall p, is_Some (fs !! p) -> is_Some (files (run w fs ds).2 !! p))
    /\ (dirs (run w fs ds).2 = ds \/ dirs (run w fs ds).2 = {[vscodeDir w]} ∪ ds)).
  { destruct Hrun as [(g & -> & Hrun)|(_ & Hst & _)].
    - destruct (confirmAndSave w g st1) as [r st'] eqn:Hs. rewrite Hrun. simpl.
      destruct (confirmAndSave_frame w g st1 r st' Hs) as (Hd & Hf & Hk & _).
      split_and!.
      + intros p Hl Hb. rewrite Hf by done. by apply Hfiles.
      + intros p Hsome. by apply Hk, Hkept.
      + by rewrite Hd.
    - rewrite Hst. split_and!; try done. intros p _ Hb. by apply Hfiles. }
  destruct Hall as (Hsame & Hsome & Hd). split_and!; try done.
  apply Hsame; apply not_eq_sym; [by apply launch_not_manifest|by apply backup_not_manifest].
Qed.

(** X5. Whatever the run does, nothing but the target file goes into the
    backup file of this run. It is left as it was; or it holds the text
    the target file was read into, written out again, which is the target
    file byte for byte when that was utf-8; or, when the write of the backup
    fails after the file was opened, it holds the first bytes of that and
    no more. Without a target file nothing is written there. *)
Theorem backup_comes_from_the_target `{JSON} (w : world) (fs : gmap string string) (ds : gset string) :
  (files (run w fs ds).2 !! getTimestampedBackupPath w = fs !! getTimestampedBackupPath w
   \/ exists target,
        fs !! launchJsonPath w = Some target
        /\ ((io_fails w WriteBackup = false
             /\ files (run w fs ds).2 !! getTimestampedBackupPath w
                = Some (utf8_encode (utf8_decode target))
             /\ (validUtf8 target ->
                 files (run w fs ds).2 !! getTimestampedBackupPath w = Some target))
            \/ (io_fails w WriteBackup = true
                /\ exists n,
                     io_wrote w WriteBackup = Some n
                     /\ files (run w fs ds).2 !! getTimestampedBackupPath w
                        = Some (firstBytes n (utf8_encode (utf8_decode target))))))
  /\ (fs !! launchJsonPath w = None ->
      files (run w fs ds).2 !! getTimestampedBackupPath w
      = fs !! getTimestampedBackupPath w).
Proof.
  assert (Hb : getTimestampedBackupPath w <> launchJsonPath w) by by apply backup_not_launch.
  destruct (run_split w fs ds) as (r1 & st1 & Hp & Hrun).
  pose proof (prepare_files w _ _ _ Hp) as Hfiles. simpl in Hfiles.
  assert (Hsame : files (run w fs ds).2 !! getTimestampedBackupPath w
                  = files st1 !! getTimestampedBackupPath w).
  { destruct Hrun as [(g & -> & Hrun)|(_ & -> & _)]; [|done].
    destruct (confirmAndSave w g st1) as [r st'] eqn:Hs. rewrite Hrun. simpl.
    destruct (confirmAndSave_frame w g st1 r st' Hs) as (_ & Hf & _). by apply Hf. }
  rewrite Hsame.
  destruct Hfiles as [->|(target & Ht & [[Hio ->]|(Hio & n & Hn & ->)])].
  - split; [by left|done].
  - rewrite lookup_insert_eq. split; [|congruence].
    right. exists target. split; [done|]. left. split_and!; try done.
    intros Hvalid. by rewrite Hvalid.
  - rewrite lookup_insert_eq. split; [|congruence].
    right. exists target. split; [done|]. right. split; [done|]. by exists n.
Qed.

Lemma backup_comes_from_the_target_witness :
  let J := Scenario.codec [Scenario.manifest; Scenario.launch] in
  let w := World [] "/proj" "2025-07-25T14:33:40.123Z" None
             (Scenario.failing WriteBackup)
             (fun _ => Some 12%nat) in
  Scenario.project !! getTimestampedBackupPath w = None
  /\ (@run J w Scenario.project Scenario.vscode).1 = Done tt
  /\ files (@run J w Scenario.project Scenario.vscode).2 !! getTimestampedBackupPath w
     = Some (firstBytes 12 (Scenario.render Scenario.launch))
  /\ exists target,
       Scenario.project !! launchJsonPath w = Some target
       /\ files (@run J w Scenario.project Scenario.vscode).2 !! getTimestampedBackupPath w
          = Some (firstBytes 12 (@utf8_encode J (@utf8_decode J target))).
Proof.
  intros J w. split; [reflexivity|]. split; [vm_compute; reflexivity|].
  split; [vm_compute; reflexivity|].
  destruct (proj1 (@backup_comes_from_the_target J w Scenario.project Scenario.vscode))
    as [Hsame|(target & Ht & [(Hio & _)|(_ & n & Hn & Hfile)])].
  - vm_compute in Hsame. discriminate Hsame.
  - vm_compute in Hio. discriminate Hio.
  - exists target. split; [exact Ht|]. injection Hn as <-. exact Hfile.
Defined.



(** X7. With [--yes] a run never puts a question and never waits for the
    terminal. *)
Theorem yes_never_asks `{JSON} (w : world) (fs : gmap string string) (ds : gset string) :
  autoYes w = true ->
  questions (console (run w fs ds).2) = 0%nat
  /\ (run w fs ds).1 <> Pending.
Proof.
  intros Hyes.
  destruct (run_split w fs ds) as (r1 & st1 & Hp & Hrun).
  destruct (prepare_frame w _ _ _ Hp) as (Hq & _). simpl in Hq.
  destruct Hrun as [(g & -> & Hrun)|(_ & Hst & _ & Hnp)].
  - rewrite Hrun. stage; try congruence.
    all: match goal with Hd : decision _ _ _ _ |- _ => destruct Hd end; try congruence.
    all: split; [|done]; leftover; by rewrite !questions_app, Hq.
  - rewrite Hst. done.
Qed.

Lemma yes_never_asks_witness :
  let J := Scenario.codec [Scenario.manifest; Scenario.launch] in
  let w := Scenario.invoke ["--yes"] None Scenario.noFaults in
  questions (console (@run J w Scenario.project Scenario.vscode).2) = 0%nat
  /\ (@run J w Scenario.project Scenario.vscode).1 <> Pending.
Proof.
  intros J w. apply (@yes_never_asks J w Scenario.project Scenario.vscode). reflexivity.
Defined.

(** X8. A run waits for the terminal exactly when it reaches the
    confirmation with at least one entry to overwrite, without [--yes], and
    no line arrives; it has then asked its one question. *)
Theorem waits_for_an_answer_only `{JSON} (w : world) (fs : gmap string string) (ds : gset string) :
  ((run w fs ds).1 = Pending <->
   autoYes w = false /\ stdin w = None
   /\ exists g st1, prepare w (Process fs ds []) = (Done g, st1)
                    /\ configsToOverwrite g <> [])
  /\ ((run w fs ds).1 = Pending -> questions (console (run w fs ds).2) = 1%nat).
Proof.
  destruct (run_split w fs ds) as (r1 & st1 & Hp & Hrun).
  destruct (prepare_frame w _ _ _ Hp) as (Hq & _). simpl in Hq.
  destruct Hrun as [(g & -> & Hrun)|(Hnd & Hst & _ & Hnp)].
  - rewrite Hrun. stage.
    + split; [|intros _; by rewrite questions_app, Hq].
      split; [|done]. intros _. split_and!; try done. by exists g, st1.
    + split; [|done]. split; [done|].
      intros (Ha & Hs & g' & st' & Heq & Hne). rewrite Hp in Heq. simplify_eq.
      match goal with Hd : decision _ _ _ _ |- _ => destruct Hd end; congruence.
    + split; [|done]. split; [done|].
      intros (Ha & Hs & g' & st' & Heq & Hne). rewrite Hp in Heq. simplify_eq.
      match goal with Hd : decision _ _ _ _ |- _ => destruct Hd end; congruence.
  - split; [|done]. split; [done|].
    intros (_ & _ & g & st' & Heq & _). rewrite Hp in Heq. injection Heq as -> _.
    by destruct (Hnd g).
Qed.

(** X9. The line on the terminal matters only when the question is put: a
    run that asks nothing ends the same way and leaves the same state
    whatever is, or is not, there to be read. *)
Theorem answer_matters_only_when_asked `{JSON} (w1 w2 : world) (fs : gmap string string) (ds : gset string) :
  argv w2 = argv w1 -> cwd w2 = cwd w1 -> clock w2 = clock w1 ->
  io_fails w2 = io_fails w1 -> io_wrote w2 = io_wrote w1 ->
  questions (console (run w1 fs ds).2) = 0%nat ->
  run w2 fs ds = run w1 fs ds.
Proof.
  destruct w1 as [a c k s1 f o], w2 as [a2 c2 k2 s2 f2 o2]. simpl.
  intros -> -> -> -> -> Hq. revert Hq.
  unfold run, main, mbind, M_bind.
  change (prepare (World a c k s2 f o)) with (prepare (World a c k s1 f o)).
  destruct (prepare (World a c k s1 f o) (Process fs ds [])) as [[g| | |] st1] eqn:Hp;
    try done.
  destruct (prepare_frame _ _ _ _ Hp) as (Hq1 & _). simpl in Hq1.
  stage;
    try (match goal with Hd : decision _ _ _ _ |- _ =>
           destruct Hd as [Ha|Ha Hn|answer Ha Hn Hs] end);
    leftover;
    try (rewrite !questions_app; unfold questions; simpl; lia).
  all: intros _; stage; leftover; unfold autoYes, hasFlag in *; simpl in *;
    try congruence.
  all: match goal with Hd : decision _ _ _ _ |- _ =>
         destruct Hd; unfold autoYes, hasFlag in *; simpl in *; try congruence end.
  all: try match goal with
           | Hn : ?x = Some ?n, Hm : ?x = Some ?m |- _ =>
               assert (n = m) as -> by congruence
           end.
  all: done.
Qed.

Lemma answer_matters_only_when_asked_witness :
  let J := Scenario.codec [Scenario.manifest; Scenario.launch] in
  let w1 := Scenario.invoke ["--yes"] None Scenario.noFaults in
  let w2 := Scenario.invoke ["--yes"] (Some "n") Scenario.noFaults in
  @run J w2 Scenario.project Scenario.vscode = @run J w1 Scenario.project Scenario.vscode.
Proof.
  intros J w1 w2.
  apply (@answer_matters_only_when_asked J w1 w2 Scenario.project Scenario.vscode);
    reflexivity.
Defined.

(** X10. A [SyntaxError] ends a run exactly when the manifest is read and
    does not parse (a target file that does not parse is never fatal);
    the run has then changed and printed nothing. *)
Theorem syntax_error_only_from_manifest `{JSON} (w : world) (fs : gmap string string) (ds : gset string) :
  ((run w fs ds).1 = Uncaught SyntaxError <->
   io_fails w ReadManifest = false
   /\ exists text, fs !! packageJsonPath w = Some text /\ JSON_parse (utf8_decode text) = None)
  /\ ((run w fs ds).1 = Uncaught SyntaxError -> (run w fs ds).2 = Process fs ds []).
Proof.
  unfold run, main, prepare, mbind, M_bind.
  stage; simpl in *.
  1,2,4,5: split; [|done]; split; [done|]; intros (Hio & text' & Ht & Hp).
  - match goal with Hn : ¬ found _ _ |- _ => destruct Hn; left; by eexists end.
  - match goal with Hor : _ \/ _ |- _ => destruct Hor; congruence end.
  - congruence.
  - congruence.
  - split; [|done]. split; [|done]. intros _. split; [done|]. by eexists.
  - assert (Hno : ¬ (io_fails w ReadManifest = false
       /\ exists text, files (Process fs ds []) !! packageJsonPath w = Some text
                       /\ JSON_parse (utf8_decode text) = None)).
    { intros (Hio & text' & Ht & Hp). simpl in *. congruence. }
    simpl in Hno.
    stage; [| |by split; [split|]].
    all: stage; try stage; try (by split; [split|]).
    all: stage; by split; [split|].
Qed.

(** X11. With scripts kept and the target file read, copied and parsed, the
    run ends in a [TypeError] exactly when the document is [null], has a
    truthy [configurations] that is no array, or holds a [null] entry; the
    copy is then the only change on disk and nothing has been asked. *)
Theorem malformed_target_is_fatal `{JSON} (w : world) (fs : gmap string string) (ds : gset string) (target : string) (doc : json) :
  keys (manifestScripts w fs) <> [] ->
  io_fails w ReadManifest = false ->
  vscodeDir w ∈ ds ->
  fs !! launchJsonPath w = Some target ->
  io_fails w ReadLaunch = false ->
  io_fails w WriteBackup = false ->
  JSON_parse (utf8_decode target) = Some doc ->
  ((run w fs ds).1 = Uncaught TypeError <-> fatalTarget doc)
  /\ (fatalTarget doc ->
      files (run w fs ds).2
      = <[getTimestampedBackupPath w := utf8_encode (utf8_decode target)]> fs
      /\ dirs (run w fs ds).2 = ds
      /\ questions (console (run w fs ds).2) = 0%nat).
Proof.
  intros Hkeys Hio Hdir Ht Hr Hb Hdoc. rewrite <- namePairs_None.
  unfold manifestScripts in Hkeys.
  unfold run, main, prepare, mbind, M_bind.
  stage; simpl in *.
  - destruct (fs !! packageJsonPath w) eqn:Hf; [|done].
    match goal with Hn : ¬ found _ _ |- _ => destruct Hn; left; by eexists end.
  - match goal with Hor : _ \/ _ |- _ => destruct Hor as [?|Hf]; [congruence|] end.
    by rewrite Hf in Hkeys.
  - match goal with Hf : _ !! _ = _, Hp : JSON_parse _ = _ |- _ =>
      rewrite Hf, Hp in Hkeys end. done.
  - match goal with Hf : _ !! _ = _, Hp : JSON_parse _ = _ |- _ =>
      rewrite Hf, Hp in Hkeys end. simpl in Hkeys. by rewrite selectScripts_none in Hkeys.
  - match goal with Hf : _ !! _ = _, Hp : JSON_parse _ = _ |- _ =>
      rewrite Hf, Hp in Hkeys end. done.
  - stage; simpl in *;
      try (match goal with Hn : ¬ found _ _ |- _ => destruct Hn; by right end).
    stage; simpl in *;
      try (match goal with Hn : ¬ found _ _ |- _ => destruct Hn; left; by eexists end);
      try (match goal with Hor : _ \/ _ |- _ => destruct Hor; congruence end);
      try congruence.
    simplify_eq. stage; simpl in *.
    + done.
    + match goal with
      | Hn : isNull doc = false, Ho : orElse _ _ = JArr ?items, Hall : Forall _ ?items |- _ =>
          pose proof (namePairs_Some doc items Hn Ho Hall) as Hfine
      end.
      split; [|done]. split; [|done].
      stage; done.
Qed.

Lemma malformed_target_is_fatal_witness :
  let J := Scenario.codec [Scenario.manifest; Cases.holed] in
  let w := Scenario.invoke [] None Scenario.noFaults in
  (@run J w Cases.holedProject Scenario.vscode).1 = Uncaught TypeError
  /\ files (@run J w Cases.holedProject Scenario.vscode).2
     = <[Scenario.backupJson := Scenario.render Cases.holed]> Cases.holedProject.
Proof.
  intros J w.
  assert (Hfatal : fatalTarget Cases.holed).
  { right. right. exists [Scenario.attach; JNull]. split; [reflexivity|].
    apply elem_of_cons. right. apply elem_of_cons. by left. }
  destruct (@malformed_target_is_fatal J w Cases.holedProject Scenario.vscode
              (Scenario.render Cases.holed) Cases.holed) as [Hiff Hst].
  - vm_compute. discriminate.
  - reflexivity.
  - apply elem_of_singleton. reflexivity.
  - reflexivity.
  - reflexivity.
  - reflexivity.
  - vm_compute. reflexivity.
  - split; [by apply Hiff|]. by apply Hst.
Defined.

(** X12. A run that starts from no entries (no target file, a target file
    that cannot be read, copied or parsed) and completes writes one entry
    per kept script, in manifest order, and asks nothing. *)
Theorem fresh_start_writes_every_script `{JSON} (w : world) (fs : gmap string string) (ds : gset string) :
  (run w fs ds).1 = Done tt ->
  fs !! launchJsonPath w = None
  \/ io_fails w ReadLaunch = true
  \/ io_fails w WriteBackup = true
  \/ (exists text, fs !! launchJsonPath w = Some text /\ JSON_parse (utf8_decode text) = None) ->
  files (run w fs ds).2 !! launchJsonPath w
  = Some (utf8_encode (JSON_stringify
            (mergedLaunchJson (makeConfig w <$> keys (manifestScripts w fs)))))
  /\ questions (console (run w fs ds).2) = 0%nat.
Proof.
  intros Hdone Hfresh.
  assert (Hnone : startingEntries w fs = []).
  { unfold startingEntries, preRunEntries.
    destruct Hfresh as [->|[->|[->|(text & -> & ->)]]]; try done.
    - by destruct (_ || _).
    - by rewrite orb_true_r.
    - by destruct (_ || _). }
  destruct (run_completed w fs ds Hdone) as (_ & _ & yes & asked & st1 & Hd & Hq & ->).
  rewrite Hnone in *. simpl.
  rewrite lookup_insert_eq. rewrite questions_app, Hq. simpl.
  split; [|apply (decision_questions w) in Hd; revert Hd;
            rewrite buildConfigs_closed by apply manifestScripts_NoDup; simpl;
            unfold conflicts; rewrite filter_none;
            [simpl; intros Ha; by rewrite questions_app, Ha|]].
  - rewrite final_layout; [|done|apply manifestScripts_NoDup].
    change (Map_values (existingMap [])) with (@nil json).
    rewrite filter_all; [by destruct yes|].
    intros s _. unfold fresh. simpl. apply not_elem_of_nil.
  - intros s _ Hs. apply Hs. unfold fresh. simpl. apply not_elem_of_nil.
Qed.

Lemma fresh_start_writes_every_script_witness :
  let J := Scenario.codec [Scenario.manifest] in
  let w := Scenario.invoke [] None Scenario.noFaults in
  files (@run J w Cases.newProject ∅).2 !! launchJsonPath w
  = Some (Scenario.render (Scenario.doc [Scenario.npmDev; Scenario.npmBuild]))
  /\ questions (console (@run J w Cases.newProject ∅).2) = 0%nat.
Proof.
  intros J w.
  apply (@fresh_start_writes_every_script J w Cases.newProject ∅).
  - vm_compute. reflexivity.
  - left. vm_compute. reflexivity.
Defined.

(** X13. The list a completed run writes: the entries the run started
    from, in their order, each one that carries the name of a kept script
    replaced in place by the entry of that script when the overwrites are
    applied, followed by the entries of the scripts whose names were free,
    in manifest order. The overwrites are applied exactly under [--yes] or
    when the line read from the terminal is a yes; where no name conflicts,
    no question is put and there is nothing to replace. When the entries
    the run started from have pairwise different names, none of them is
    dropped. *)
Theorem written_layout `{JSON} (w : world) (fs : gmap string string) (ds : gset string) :
  (run w fs ds).1 = Done tt ->
  let items := startingEntries w fs in
  let names := keys (manifestScripts w fs) in
  let old := Map_values (existingMap items) in
  let new := makeConfig w <$> filter (fresh w (existingMap items)) names in
  let yes :=
    autoYes w || match stdin w with Some answer => saysYes answer | None => false end in
  files (run w fs ds).2 !! launchJsonPath w
  = Some (utf8_encode (JSON_stringify (mergedLaunchJson
            ((if yes then regenerated w names <$> old else old) ++ new))))
  /\ (NoDup (nameKeys items) -> old = items).
Proof.
  intros Hdone items names old new yes.
  destruct (run_completed w fs ds Hdone) as (Hitems & _ & yes' & asked & st1 & Hd & _ & ->).
  split; [|apply existingMap_distinct].
  simpl. rewrite lookup_insert_eq.
  rewrite final_layout; [|done|apply manifestScripts_NoDup].
  fold items names old new.
  assert (Hsame : (if yes' then regenerated w names <$> old else old)
                  = (if yes then regenerated w names <$> old else old));
    [|by rewrite Hsame].
  revert Hd. rewrite buildConfigs_closed by apply manifestScripts_NoDup.
  fold items names. unfold yes. intros Hd.
  inversion Hd as [Ha|Ha Hn|answer Ha Hn Hs]; subst; simpl in *.
  - by rewrite Ha.
  - rewrite Ha. simpl. destruct (stdin w) as [answer|]; [|done].
    destruct (saysYes answer); [|done].
    symmetry. apply regenerated_idle; [by apply existing_keyed|done].
  - by rewrite Ha, Hs.
Qed.

Lemma written_layout_witness :
  let J := Scenario.codec [Scenario.manifest; Scenario.launch] in
  let w := Scenario.invoke [] (Some "y") Scenario.noFaults in
  let w' := Scenario.invoke [] (Some "n") Scenario.noFaults in
  (Map_values (existingMap (@startingEntries J w Scenario.project))
   = [Scenario.attach; Scenario.staleDev]
   /\ files (@run J w Scenario.project Scenario.vscode).2 !! launchJsonPath w
      = Some (Scenario.render
                (Scenario.doc [Scenario.attach; Scenario.npmDev; Scenario.npmBuild])))
  /\ files (@run J w' Scenario.project Scenario.vscode).2 !! launchJsonPath w'
     = Some (Scenario.render
               (Scenario.doc [Scenario.attach; Scenario.staleDev; Scenario.npmBuild])).
Proof.
  intros J w w'.
  assert (Hdone : (@run J w Scenario.project Scenario.vscode).1 = Done tt)
    by (vm_compute; reflexivity).
  assert (Hdone' : (@run J w' Scenario.project Scenario.vscode).1 = Done tt)
    by (vm_compute; reflexivity).
  destruct (@written_layout J w Scenario.project Scenario.vscode Hdone) as [Hfile Hold].
  destruct (@written_layout J w' Scenario.project Scenario.vscode Hdone') as [Hfile' _].
  split; [split|].
  - apply Hold. vm_compute. repeat constructor; set_solver.
  - rewrite Hfile. vm_compute. reflexivity.
  - rewrite Hfile'. vm_compute. reflexivity.
Defined.



(** X15. The last line of a completed run reports the number of entries it
    added or replaced: the scripts whose names were free, plus the
    overwrites when they are applied. Every kept script is counted in
    exactly one of the two groups, so under [--yes] the number is that of
    the kept scripts. *)
Theorem updated_count `{JSON} (w : world) (fs : gmap string string) (ds : gset string) :
  (run w fs ds).1 = Done tt ->
  let m := existingMap (startingEntries w fs) in
  let names := keys (manifestScripts w fs) in
  exists k,
    last (console (run w fs ds).2) = Some (ConsoleLog (Updated k))
    /\ (length (filter (fresh w m) names) <= k <= length names)%nat
    /\ (length (filter (fresh w m) names) + length (conflicts w m names))%nat
       = length names
    /\ (autoYes w = true \/ conflicts w m names = [] -> k = length names).
Proof.
  intros Hdone m names.
  destruct (run_completed w fs ds Hdone) as (_ & _ & yes & asked & st1 & Hd & _ & ->).
  revert Hd. rewrite buildConfigs_closed by apply manifestScripts_NoDup. simpl.
  fold m names. intros Hd. rewrite length_fmap.
  pose proof (split_count w m names) as Hsplit.
  eexists. split; [by rewrite !last_app|].
  split_and!; try (destruct yes; lia).
  intros [Ha|Hn].
  - destruct Hd; simpl in *; congruence.
  - rewrite Hn in *. simpl in *. destruct yes; lia.
Qed.

Lemma updated_count_witness :
  let J := Scenario.codec [Scenario.manifest; Scenario.launch] in
  let w := Scenario.invoke ["--yes"] None Scenario.noFaults in
  last (console (@run J w Scenario.project Scenario.vscode).2)
  = Some (ConsoleLog (Updated 2)).
Proof.
  intros J w.
  destruct (@updated_count J w Scenario.project Scenario.vscode) as (k & Hlast & _).
  - vm_compute. reflexivity.
  - vm_compute. reflexivity.
Defined.

(** X16. The document a completed run writes has two fields, [version],
    which is [0.2.0], and [configurations]: whatever else the old target
    file held beside its entries (another version, [compounds], [inputs])
    is not carried over. *)
Theorem only_configurations_survive `{JSON} (w : world) (fs : gmap string string) (ds : gset string) :
  (run w fs ds).1 = Done tt ->
  exists cfgs,
    files (run w fs ds).2 !! launchJsonPath w
    = Some (utf8_encode (JSON_stringify
              (JObj [("version", JStr "0.2.0"); ("configurations", JArr cfgs)])))
    /\ Forall (fun cfg => isNull cfg = false) cfgs.
Proof.
  intros Hdone.
  destruct (run_completed w fs ds Hdone) as (Hitems & _ & yes & asked & st1 & _ & _ & ->).
  eexists. split; [simpl; by rewrite lookup_insert_eq|].
  apply keyed_values, final_keyed; [done|apply manifestScripts_NoDup].
Qed.

Lemma only_configurations_survive_witness :
  let J := Scenario.codec [Scenario.manifest; Cases.compound] in
  let w := Scenario.invoke ["--yes"] None Scenario.noFaults in
  prop Cases.compound "compounds" <> None
  /\ files (@run J w Cases.compoundProject Scenario.vscode).2 !! launchJsonPath w
     = Some (Scenario.render
               (Scenario.doc [Scenario.attach; Scenario.npmDev; Scenario.npmBuild]))
  /\ exists cfgs,
       files (@run J w Cases.compoundProject Scenario.vscode).2 !! launchJsonPath w
       = Some (@utf8_encode J
                 (@JSON_stringify J
                    (JObj [("version", JStr "0.2.0"); ("configurations", JArr cfgs)]))).
Proof.
  intros J w. split; [discriminate|]. split; [vm_compute; reflexivity|].
  destruct (@only_configurations_survive J w Cases.compoundProject Scenario.vscode)
    as (cfgs & Hfile & _).
  - vm_compute. reflexivity.
  - by exists cfgs.
Defined.

(** X17. A run changes no file unless something is at [.vscode] by then:
    neither the copy nor the target is written before the directory has
    been found or made. *)
Theorem writes_only_under_vscode `{JSON} (w : world) (fs : gmap string string) (ds : gset string) :
  files (run w fs ds).2 = fs \/ found (vscodeDir w) (run w fs ds).2.
Proof.
  destruct (run_split w fs ds) as (r1 & st1 & Hp & Hrun).
  pose proof (prepare_vscode w _ _ _ Hp) as Hv. simpl in Hv.
  destruct Hrun as [(g & -> & Hrun)|(_ & -> & _)].
  - destruct Hv as [[_ Hnd]|Hv]; [by destruct (Hnd g)|]. right.
    destruct (confirmAndSave w g st1) as [r st'] eqn:Hs. rewrite Hrun. simpl.
    destruct (confirmAndSave_frame w g st1 r st' Hs) as (Hd & _ & Hk & _).
    unfold found in *. rewrite Hd. destruct Hv as [Hv|Hv]; [left|by right].
    by apply Hk.
  - destruct Hv as [[Hv _]|Hv]; [by left|by right].
Qed.
